(** * A shallow embedding of the messaging relay of [api.py]

    The development follows the Flask application of [src/api.py]: the three
    SQLAlchemy tables ([User], [Message], [UserWebhook]) are lists of rows,
    the upload folder is a finite set of paths, and every request handler
    and background task is a function from the database state to a response
    and a new state.  Clock reads, random tokens and the outcome of the
    outbound HTTP call are arguments of the functions that use them: [now]
    is the read made by the body of a function, and the later read by which
    a column default stamps an inserted message is [inserted_at].  Text is
    held as its UTF-8 bytes, and a JSON body as the object it parses to.
    Requests are served one at a time, and the database and the file system
    do not fail: of the [except] branches of the handlers, two are reached,
    the one of [send_file] on a request longer than [MAX_CONTENT_LENGTH] and
    the one of [download_file] on its call to [send_file]. *)

From Stdlib Require Import Ascii.
From stdpp Require Import base decidable numbers option list sorting strings gmap.

Local Open Scope Z_scope.

(** ** Python values *)

(** Truthiness of an optional string ([None] and [''] are falsy). *)
Definition truthy_str (s : option string) : bool :=
  match s with
  | Some EmptyString | None => false
  | Some _ => true
  end.

(** Truthiness of an optional integer ([None] and [0] are falsy). *)
Definition truthy_int (n : option Z) : bool :=
  match n with
  | Some 0 | None => false
  | Some _ => true
  end.

(** [x or 0] for an optional integer. *)
Definition or_zero (n : option Z) : Z :=
  if truthy_int n then default 0 n else 0.

(** [c in s] for a one-character [c]. *)
Fixpoint contains_char (c : ascii) (s : string) : bool :=
  match s with
  | EmptyString => false
  | String a s' => if Ascii.eqb a c then true else contains_char c s'
  end.

(** The split point of [s.rsplit(sep, 1)]: the text before and after the
    last occurrence of [sep], when there is one. *)
Fixpoint rsplit_last (sep : ascii) (s : string) : option (string * string) :=
  match s with
  | EmptyString => None
  | String a s' =>
      match rsplit_last sep s' with
      | Some (before, after) => Some (String a before, after)
      | None => if Ascii.eqb a sep then Some (EmptyString, s') else None
      end
  end.

(** [s.rsplit(sep, 1)]. *)
Definition rsplit1 (sep : ascii) (s : string) : list string :=
  match rsplit_last sep s with
  | Some (before, after) => [before; after]
  | None => [s]
  end.

(** [str.lower] and [str.upper] on the ASCII letters; other bytes are kept.
    (No character outside ASCII lowercases to a letter of an allowed
    extension, so the byte-wise reading decides [allowed_file] the same way.) *)
Definition lower_ascii (a : ascii) : ascii :=
  let n := N_of_ascii a in
  if ((65 <=? n) && (n <=? 90))%N then ascii_of_N (n + 32) else a.

Definition upper_ascii (a : ascii) : ascii :=
  let n := N_of_ascii a in
  if ((97 <=? n) && (n <=? 122))%N then ascii_of_N (n - 32) else a.

Fixpoint lower (s : string) : string :=
  match s with
  | EmptyString => EmptyString
  | String a s' => String (lower_ascii a) (lower s')
  end.

Fixpoint upper (s : string) : string :=
  match s with
  | EmptyString => EmptyString
  | String a s' => String (upper_ascii a) (upper s')
  end.

(** [len(s)] and [s[:n]] count characters.  In UTF-8 every character
    starts at a byte that is not a continuation byte ([10xxxxxx]) and owns
    the continuation bytes that follow it. *)
Definition is_continuation (a : ascii) : bool :=
  let n := N_of_ascii a in ((128 <=? n) && (n <? 192))%N.

Fixpoint len (s : string) : nat :=
  match s with
  | EmptyString => O
  | String a s' => if is_continuation a then len s' else S (len s')
  end.

Fixpoint slice_to (n : nat) (s : string) : string :=
  match s with
  | EmptyString => EmptyString
  | String a s' =>
      if is_continuation a then String a (slice_to n s')
      else match n with
           | O => EmptyString
           | S n' => String a (slice_to n' s')
           end
  end.

(** ** Configuration *)

Definition MAX_CONTENT_LENGTH : Z := 30 * 1024 * 1024.
Definition MAX_USER_STORAGE : Z := 100 * 1024 * 1024.
Definition MAX_TOTAL_STORAGE : Z := 700 * 1024 * 1024.
Definition MESSAGE_AUTO_DELETE_HOURS : Z := 24.
Definition POLLING_LIMIT : Z := 50.
Definition UPLOAD_FOLDER : string := "telegram_files".

(** Timestamps are seconds; [timedelta(hours=h)]. *)
Definition hours (h : Z) : Z := h * 3600.

(** ** Helper functions *)

Definition ALLOWED_EXTENSIONS : gset string :=
  list_to_set
    ["txt"; "pdf"; "png"; "jpg"; "jpeg"; "gif"; "doc"; "docx";
     "zip"; "mp3"; "mp4"; "tgs"; "webp"; "json"; "svg"; "avi";
     "mov"; "wav"; "ogg"; "rar"; "7z"; "ppt"; "pptx"; "xls"; "xlsx"]%string.

Definition allowed_file (filename : string) : bool :=
  contains_char "." filename &&
  match rsplit1 "." filename !! 1%nat with
  | Some ext => bool_decide (lower ext ∈ ALLOWED_EXTENSIONS)
  | None => false
  end.


(** ** Database models *)

Module User.
Record t := mk {
  id : Z;                    (* primary key *)
  user_id : string;
  username : string;
  email : string;
  api_key : string;
  storage_used : Z;
  message_count : Z;
  is_active : bool;
  is_admin : bool;
  created_at : Z;
  last_activity : Z
}.

Definition with_storage_used (v : Z) (u : t) : t :=
  mk (id u) (user_id u) (username u) (email u) (api_key u) v
     (message_count u) (is_active u) (is_admin u) (created_at u)
     (last_activity u).

Definition with_message_count (v : Z) (u : t) : t :=
  mk (id u) (user_id u) (username u) (email u) (api_key u) (storage_used u)
     v (is_active u) (is_admin u) (created_at u) (last_activity u).

Definition with_last_activity (v : Z) (u : t) : t :=
  mk (id u) (user_id u) (username u) (email u) (api_key u) (storage_used u)
     (message_count u) (is_active u) (is_admin u) (created_at u) v.
End User.

Inductive message_type := text | file | reply.

Module Message.
Record t := mk {
  id : Z;                    (* primary key: the [update_id] of the API *)
  message_id : string;
  message_type : message_type;
  text_content : option string;
  file_id : option string;
  original_name : option string;
  file_name : option string;
  file_path : option string;
  file_size : option Z;
  mime_type : option string;
  reply_to_message_id : option string;
  reply_to_sender_id : option string;
  reply_to_text : option string;
  sender_id : string;
  sender_username : string;
  receiver_id : string;
  sent_at : Z;
  expires_at : Z;
  is_delivered : bool;
  read_count : Z;
  webhook_sent : bool
}.

Definition with_is_delivered (v : bool) (m : t) : t :=
  mk (id m) (message_id m) (message_type m) (text_content m) (file_id m)
     (original_name m) (file_name m) (file_path m) (file_size m)
     (mime_type m) (reply_to_message_id m) (reply_to_sender_id m)
     (reply_to_text m) (sender_id m) (sender_username m) (receiver_id m)
     (sent_at m) (expires_at m) v (read_count m) (webhook_sent m).

Definition with_read_count (v : Z) (m : t) : t :=
  mk (id m) (message_id m) (message_type m) (text_content m) (file_id m)
     (original_name m) (file_name m) (file_path m) (file_size m)
     (mime_type m) (reply_to_message_id m) (reply_to_sender_id m)
     (reply_to_text m) (sender_id m) (sender_username m) (receiver_id m)
     (sent_at m) (expires_at m) (is_delivered m) v (webhook_sent m).

Definition with_webhook_sent (v : bool) (m : t) : t :=
  mk (id m) (message_id m) (message_type m) (text_content m) (file_id m)
     (original_name m) (file_name m) (file_path m) (file_size m)
     (mime_type m) (reply_to_message_id m) (reply_to_sender_id m)
     (reply_to_text m) (sender_id m) (sender_username m) (receiver_id m)
     (sent_at m) (expires_at m) (is_delivered m) (read_count m) v.
End Message.

Module UserWebhook.
Record t := mk {
  id : Z;
  user_id : string;
  webhook_url : string;
  secret_token : option string;
  is_active : bool;
  created_at : Z;
  last_triggered : option Z
}.

Definition with_last_triggered (v : option Z) (w : t) : t :=
  mk (id w) (user_id w) (webhook_url w) (secret_token w) (is_active w)
     (created_at w) v.
End UserWebhook.

(** The dictionary built by [Message.to_dict]; an absent key is [None]. *)
Record file_dict := {
  fd_file_id : option string;
  fd_original_name : option string;
  fd_file_size : option Z;
  fd_mime_type : option string
}.

Record reply_dict := {
  rd_message_id : option string;
  rd_sender_id : option string;
  rd_text_preview : option string
}.

Record message_dict := {
  update_id : Z;
  md_message_id : string;
  md_message_type : message_type;
  md_sender_id : string;
  md_sender_username : string;
  md_receiver_id : string;
  md_sent_at : Z;
  md_expires_at : Z;
  md_is_delivered : bool;
  md_read_count : Z;
  md_text : option (option string);
  md_file : option file_dict;
  md_caption : option string;
  md_reply_to : option reply_dict
}.

Definition text_preview (reply_to_text : option string) : option string :=
  match reply_to_text with
  | Some s =>
      if truthy_str (Some s) && bool_decide (100 < len s)%nat
      then Some (slice_to 100 s +:+ "...")
      else Some s
  | None => None
  end.

Definition to_dict (self : Message.t) : message_dict :=
  let ty := Message.message_type self in
  {| update_id := Message.id self;
     md_message_id := Message.message_id self;
     md_message_type := ty;
     md_sender_id := Message.sender_id self;
     md_sender_username := Message.sender_username self;
     md_receiver_id := Message.receiver_id self;
     md_sent_at := Message.sent_at self;
     md_expires_at := Message.expires_at self;
     md_is_delivered := Message.is_delivered self;
     md_read_count := Message.read_count self;
     md_text :=
       match ty with
       | text | reply => Some (Message.text_content self)
       | file => None
       end;
     md_file :=
       match ty with
       | file => Some {| fd_file_id := Message.file_id self;
                         fd_original_name := Message.original_name self;
                         fd_file_size := Message.file_size self;
                         fd_mime_type := Message.mime_type self |}
       | _ => None
       end;
     md_caption :=
       match ty with
       | file => if truthy_str (Message.text_content self)
                 then Message.text_content self else None
       | _ => None
       end;
     md_reply_to :=
       match ty with
       | reply =>
           if truthy_str (Message.reply_to_message_id self)
           then Some {| rd_message_id := Message.reply_to_message_id self;
                        rd_sender_id := Message.reply_to_sender_id self;
                        rd_text_preview :=
                          text_preview (Message.reply_to_text self) |}
           else None
       | _ => None
       end |}.

(** ** The state: the three tables and the files on disk *)

Record DB := mkDB {
  users : list User.t;
  messages : list Message.t;
  webhooks : list UserWebhook.t;
  disk : gset string
}.

Definition set_users (us : list User.t) (db : DB) : DB :=
  mkDB us (messages db) (webhooks db) (disk db).
Definition set_messages (ms : list Message.t) (db : DB) : DB :=
  mkDB (users db) ms (webhooks db) (disk db).
Definition set_webhooks (ws : list UserWebhook.t) (db : DB) : DB :=
  mkDB (users db) (messages db) ws (disk db).
Definition set_disk (d : gset string) (db : DB) : DB :=
  mkDB (users db) (messages db) (webhooks db) d.

(** [query.filter(...).first()]: the first row that satisfies the filter. *)
Definition first {A} (p : A → bool) (rows : list A) : option A :=
  head (List.filter p rows).

(** The primary key given to an inserted row: one more than the largest
    key in the table (SQLite's rule for an [INTEGER PRIMARY KEY]), 1 in an
    empty table. *)
Definition next_id (ids : list Z) : Z := 1 + foldr Z.max 0 ids.

(** An attribute assignment on a loaded row, written back by primary key. *)
Definition update_user (pk : Z) (f : User.t → User.t) (db : DB) : DB :=
  set_users (map (λ u, if decide (User.id u = pk) then f u else u) (users db)) db.

Definition update_message (pk : Z) (f : Message.t → Message.t) (db : DB) : DB :=
  set_messages
    (map (λ m, if decide (Message.id m = pk) then f m else m) (messages db)) db.

Definition update_webhook (pk : Z) (f : UserWebhook.t → UserWebhook.t) (db : DB) : DB :=
  set_webhooks
    (map (λ w, if decide (UserWebhook.id w = pk) then f w else w) (webhooks db)) db.

(** [db.session.delete(message)]. *)
Definition delete_message (pk : Z) (db : DB) : DB :=
  set_messages (List.filter (λ m, negb (bool_decide (Message.id m = pk))) (messages db)) db.

(** The live value of a loaded row. *)
Definition get_user (pk : Z) (db : DB) : option User.t :=
  first (λ u, bool_decide (User.id u = pk)) (users db).

(** [os.path.exists] guarded by the truthiness of the path, and [os.remove]. *)
Definition path_exists (p : option string) (db : DB) : bool :=
  truthy_str p && bool_decide (default EmptyString p ∈ disk db).

Definition os_remove (p : option string) (db : DB) : DB :=
  set_disk (disk db ∖ {[ default EmptyString p ]}) db.

(** [query.order_by(key.asc())].  The rows of a table are listed by
    ascending primary key, the order in which SQLite scans them; rows of
    equal [key] come out of its sort in that order. *)
Definition key_le {A} (key : A → Z) : relation A := λ a b, key a ≤ key b.

#[global] Instance key_le_dec {A} (key : A → Z) (a b : A) :
  Decision (key_le key a b) := Z.le_dec (key a) (key b).

Fixpoint insert_by {A} (key : A → Z) (x : A) (rows : list A) : list A :=
  match rows with
  | [] => [x]
  | y :: rows' =>
      if decide (key x ≤ key y) then x :: rows else y :: insert_by key x rows'
  end.

Definition order_by {A} (key : A → Z) (rows : list A) : list A :=
  foldr (insert_by key) [] rows.

(** [query.limit(n)]: SQLite reads a negative limit as no limit. *)
Definition limit {A} (n : Z) (rows : list A) : list A :=
  if decide (n < 0) then rows else take (Z.to_nat n) rows.

(** ** Responses *)

(** A JSON response: the [data] of a success, or the status code and the
    [error] text of a failure. *)
Inductive response (A : Type) :=
  | Success (data : A)
  | Failure (status : Z) (error : string).
Arguments Success {A} data.
Arguments Failure {A} status error.

(** A JSON object or form with string values. *)
Abbreviation json := (gmap string string).

(** [not data] for a request body: absent or an empty object. *)
Definition no_data (data : option json) : bool :=
  match data with
  | Some d => bool_decide (d = ∅)
  | None => true
  end.

(** ** Helper functions over the tables *)

(** [SUM(file_size)] over the rows whose [file_size] is not NULL; [total or
    0] makes the sum of no row 0. *)
Definition get_total_storage_used (db : DB) : Z :=
  foldr Z.add 0 (omap Message.file_size (messages db)).

(** The outcome of [requests.post]: a response with its status code, or an
    exception (connection error, timeout). *)
Inductive post_outcome := Responded (status_code : Z) | Raised.

Definition active_webhook (user_id : string) (db : DB) : option UserWebhook.t :=
  first (λ w, bool_decide (UserWebhook.user_id w = user_id) && UserWebhook.is_active w)
        (webhooks db).

Definition send_webhook_notification
    (user_id : string) (message_data : message_dict)
    (post : post_outcome) (now : Z) (db : DB) : bool * DB :=
  match active_webhook user_id db with
  | None => (false, db)
  | Some webhook =>
      match post with
      | Raised => (false, db)
      | Responded status_code =>
          let db := update_webhook (UserWebhook.id webhook)
                      (UserWebhook.with_last_triggered (Some now)) db in
          let db :=
            match first (λ m, bool_decide (Message.message_id m = md_message_id message_data))
                        (messages db) with
            | Some message =>
                update_message (Message.id message) (Message.with_webhook_sent true) db
            | None => db
            end in
          (bool_decide (status_code = 200), db)
      end
  end.

Definition get_message_preview (message : Message.t) : option string :=
  match Message.message_type message with
  | text => Message.text_content message
  | file =>
      Some ("📎 " +:+ default "None" (Message.original_name message) +:+
            (if truthy_str (Message.text_content message)
             then " - " +:+ default "" (Message.text_content message)
             else ""))%string
  | reply => Message.text_content message
  end.

(** The sender of a message, looked up by [user_id]. *)
Definition sender_of (message : Message.t) (db : DB) : option User.t :=
  first (λ u, bool_decide (User.user_id u = Message.sender_id message)) (users db).

(** ** The retention and eviction engine *)

(** One turn of the loop of [cleanup_old_messages]. *)
Definition cleanup_message (db : DB) (message : Message.t) : DB :=
  let db :=
    if path_exists (Message.file_path message) db
    then os_remove (Message.file_path message) db else db in
  let db :=
    if truthy_int (Message.file_size message) then
      match sender_of message db with
      | Some sender =>
          update_user (User.id sender)
            (λ u, User.with_message_count (Z.max 0 (User.message_count u - 1))
                    (User.with_storage_used
                       (Z.max 0 (User.storage_used u - or_zero (Message.file_size message))) u))
            db
      | None => db
      end
    else db in
  delete_message (Message.id message) db.

Definition cleanup_old_messages (now : Z) (db : DB) : DB :=
  let cutoff_time := now - hours MESSAGE_AUTO_DELETE_HOURS in
  let old_messages :=
    List.filter (λ m, bool_decide (Message.sent_at m < cutoff_time)) (messages db) in
  foldl cleanup_message db old_messages.

(** [Message.file_size.isnot(None)]. *)
Definition has_file_size (m : Message.t) : bool :=
  match Message.file_size m with Some _ => true | None => false end.

(** The loop of the global cap; [file_size] is not [None] on the rows it
    runs over. *)
Fixpoint global_loop (total_storage : Z) (files_to_delete : list Message.t)
    (deleted_size : Z) (db : DB) : DB :=
  match files_to_delete with
  | [] => db
  | message :: rest =>
      if decide (total_storage - deleted_size ≤ MAX_TOTAL_STORAGE) then db
      else
        let file_size := default 0 (Message.file_size message) in
        let '(db, deleted_size) :=
          if path_exists (Message.file_path message) db
          then (os_remove (Message.file_path message) db, deleted_size + file_size)
          else (db, deleted_size) in
        let db :=
          match sender_of message db with
          | Some sender =>
              update_user (User.id sender)
                (λ u, User.with_message_count (Z.max 0 (User.message_count u - 1))
                        (User.with_storage_used
                           (Z.max 0 (User.storage_used u - file_size)) u))
                db
          | None => db
          end in
        global_loop total_storage rest deleted_size
                    (delete_message (Message.id message) db)
  end.

(** The loop of the per-user cap over the files of the user with primary
    key [pk]; [user.storage_used] is read from the row at every turn. *)
Fixpoint user_loop (pk : Z) (user_files : list Message.t)
    (deleted_size : Z) (db : DB) : DB :=
  match user_files with
  | [] => db
  | message :: rest =>
      match get_user pk db with
      | None => db
      | Some user =>
          if decide (User.storage_used user - deleted_size ≤ MAX_USER_STORAGE) then db
          else
            let file_size := default 0 (Message.file_size message) in
            let '(db, deleted_size) :=
              if path_exists (Message.file_path message) db
              then (os_remove (Message.file_path message) db, deleted_size + file_size)
              else (db, deleted_size) in
            let db :=
              update_user pk
                (λ u, User.with_message_count (User.message_count u - 1)
                        (User.with_storage_used (User.storage_used u - file_size) u))
                db in
            user_loop pk rest deleted_size (delete_message (Message.id message) db)
      end
  end.

Definition enforce_user (db : DB) (pk : Z) : DB :=
  match get_user pk db with
  | None => db
  | Some user =>
      if decide (User.storage_used user > MAX_USER_STORAGE) then
        let user_files :=
          order_by Message.sent_at
            (List.filter (λ m, bool_decide (Message.sender_id m = User.user_id user)
                               && has_file_size m) (messages db)) in
        user_loop pk user_files 0 db
      else db
  end.

Definition enforce_storage_limits (db : DB) : DB :=
  let total_storage := get_total_storage_used db in
  let db :=
    if decide (total_storage > MAX_TOTAL_STORAGE) then
      let files_to_delete :=
        order_by Message.sent_at (List.filter has_file_size (messages db)) in
      global_loop total_storage files_to_delete 0 db
    else db in
  foldl enforce_user db (map User.id (users db)).

(** One cycle of [background_cleanup]. *)
Definition background_cycle (now : Z) (db : DB) : DB :=
  enforce_storage_limits (cleanup_old_messages now db).

(** ** Request handlers *)

(** The authentication decorator: [f] runs on the row of the key's owner. *)
Definition require_api_key {A} (api_key : option string) (now : Z)
    (f : User.t → DB → response A * DB) (db : DB) : response A * DB :=
  if negb (truthy_str api_key) then (Failure 401 "API Key required", db)
  else
    match first (λ u, bool_decide (Some (User.api_key u) = api_key) && User.is_active u)
                (users db) with
    | None => (Failure 401 "Invalid API Key", db)
    | Some user =>
        let db := update_user (User.id user) (User.with_last_activity now) db in
        f (User.with_last_activity now user) db
    end.

(** [User(user_id, username, email, is_admin)] inserted at time [now] with
    the random key [api_key]. *)
Definition new_user (user_id username email api_key : string) (is_admin : bool)
    (now : Z) (db : DB) : User.t :=
  User.mk (next_id (map User.id (users db))) user_id username email api_key
          0 0 true is_admin now now.

Definition register_user (data : option json) (api_key : string) (now : Z)
    (db : DB) : response User.t * DB :=
  if no_data data then (Failure 400 "JSON data required", db)
  else
    let data := default ∅ data in
    let user_id := data !! "user_id" in
    let username := data !! "username" in
    let email := data !! "email" in
    if negb (truthy_str user_id) || negb (truthy_str username) || negb (truthy_str email)
    then (Failure 400 "User ID, username and email are required", db)
    else
      match first (λ u, bool_decide (Some (User.user_id u) = user_id)
                        || bool_decide (Some (User.username u) = username)
                        || bool_decide (Some (User.email u) = email)) (users db) with
      | Some existing_user =>
          (Failure 400 "User ID, username or email already exists", db)
      | None =>
          let user := new_user (default "" user_id) (default "" username)
                               (default "" email) api_key false now db in
          (Success user, set_users (users db ++ [user]) db)
      end.

Definition init_db (api_key : string) (now : Z) (db : DB) : DB :=
  match first (λ u, bool_decide (User.user_id u = "admin")) (users db) with
  | Some admin => db
  | None =>
      set_users (users db ++ [new_user "admin" "admin" "admin@example.com"
                                       api_key true now db]) db
  end.

(** The reply linkage captured at send time. *)
Definition reply_link (reply_to_message_id : option string) (db : DB)
    : option string * option string :=
  if truthy_str reply_to_message_id then
    match first (λ m, bool_decide (Some (Message.message_id m) = reply_to_message_id))
                (messages db) with
    | Some original_message =>
        (Some (Message.sender_id original_message),
         get_message_preview original_message)
    | None => (None, None)
    end
  else (None, None).

(** The body of a successful send, and the arguments of the notification
    thread it starts. *)
Record sent := {
  sent_message_id : string;
  sent_file_id : option string;
  sent_update_id : Z;
  sent_sent_at : Z;
  notify_user_id : string;
  notify_message_data : message_dict
}.

Definition receiver_exists (receiver_id : option string) (db : DB) : bool :=
  bool_decide (is_Some (first (λ u, bool_decide (Some (User.user_id u) = receiver_id)
                                    && User.is_active u) (users db))).

Definition send_message (sender : User.t) (data : option json)
    (message_id : string) (now inserted_at : Z) (db : DB) : response sent * DB :=
  if no_data data then (Failure 400 "JSON data required", db)
  else
    let data := default ∅ data in
    let receiver_id := data !! "receiver_id" in
    let text_ := data !! "text" in
    let reply_to_message_id := data !! "reply_to_message_id" in
    if negb (truthy_str receiver_id) then (Failure 400 "Receiver ID is required", db)
    else if negb (truthy_str text_) then (Failure 400 "Message text is required", db)
    else if negb (receiver_exists receiver_id db)
    then (Failure 404 "Receiver user not found", db)
    else
      let '(reply_to_sender_id, reply_to_text) := reply_link reply_to_message_id db in
      let expires_at := now + hours MESSAGE_AUTO_DELETE_HOURS in
      let message :=
        Message.mk (next_id (map Message.id (messages db))) message_id
          (if truthy_str reply_to_message_id then reply else text)
          text_ None None None None None None
          reply_to_message_id reply_to_sender_id reply_to_text
          (User.user_id sender) (User.username sender) (default "" receiver_id)
          inserted_at expires_at false 0 false in
      let db := set_messages (messages db ++ [message]) db in
      let db := update_user (User.id sender)
                  (λ u, User.with_message_count (User.message_count u + 1) u) db in
      (Success {| sent_message_id := message_id;
                  sent_file_id := None;
                  sent_update_id := Message.id message;
                  sent_sent_at := Message.sent_at message;
                  notify_user_id := default "" receiver_id;
                  notify_message_data := to_dict message |}, db).

(** An uploaded file: its name, its MIME type and its length in bytes
    ([file.seek(0, 2); file.tell()]). *)
Record file_storage := {
  filename : string;
  content_type : option string;
  content_length : Z
}.

(** What reading [request.files] gives: the file under the key ['file'] if
    there is one, or the exception 413 that Flask raises when the request
    is longer than [MAX_CONTENT_LENGTH]. *)
Inductive request_files :=
  | TooLarge
  | Files (upload : option file_storage).

(** The files of a multipart request of [request_length] bytes that
    carries [upload]. *)
Definition parse_files (request_length : Z) (upload : option file_storage)
    : request_files :=
  if decide (request_length > MAX_CONTENT_LENGTH) then TooLarge else Files upload.

Section Handlers.

(** [werkzeug.utils.secure_filename]. *)
Variable secure_filename : string → string.

Definition send_file (sender : User.t) (files : request_files) (form : json)
    (file_id message_id : string) (now inserted_at : Z) (db : DB)
    : response sent * DB :=
  match files with
  | TooLarge =>
      (* raised by ['file' not in request.files] and caught by [except] *)
      (Failure 500 ("Failed to send file: 413 Request Entity Too Large: " +:+
                    "The data value transmitted exceeds the capacity limit."), db)
  | Files None => (Failure 400 "No file provided", db)
  | Files (Some file_) =>
      if bool_decide (filename file_ = "") then (Failure 400 "No file selected", db)
      else
        let receiver_id := form !! "receiver_id" in
        let caption := default "" (form !! "caption") in
        let reply_to_message_id := form !! "reply_to_message_id" in
        if negb (truthy_str receiver_id) then (Failure 400 "Receiver ID is required", db)
        else
          let file_size := content_length file_ in
          if decide (file_size > 30 * 1024 * 1024)
          then (Failure 400 "File size exceeds 30MB limit", db)
          else if decide (User.storage_used sender + file_size > MAX_USER_STORAGE)
          then (Failure 400 "Storage limit exceeded", db)
          else if negb (receiver_exists receiver_id db)
          then (Failure 404 "Receiver user not found", db)
          else
            let '(reply_to_sender_id, reply_to_text) :=
              reply_link reply_to_message_id db in
            if truthy_str (Some (filename file_)) && allowed_file (filename file_) then
              let filename := secure_filename (filename file_) in
              let unique_filename := file_id +:+ "_" +:+ filename in
              let file_path := UPLOAD_FOLDER +:+ "/" +:+ unique_filename in
              let db := set_disk ({[ file_path ]} ∪ disk db) db in
              let expires_at := now + hours MESSAGE_AUTO_DELETE_HOURS in
              let message :=
                Message.mk (next_id (map Message.id (messages db))) message_id file
                  (Some caption) (Some file_id) (Some filename)
                  (Some unique_filename) (Some file_path) (Some file_size)
                  (content_type file_)
                  reply_to_message_id reply_to_sender_id reply_to_text
                  (User.user_id sender) (User.username sender)
                  (default "" receiver_id)
                  inserted_at expires_at false 0 false in
              let db := set_messages (messages db ++ [message]) db in
              let db :=
                update_user (User.id sender)
                  (λ u, User.with_message_count (User.message_count u + 1)
                          (User.with_storage_used (User.storage_used u + file_size) u))
                  db in
              (Success {| sent_message_id := message_id;
                          sent_file_id := Some file_id;
                          sent_update_id := Message.id message;
                          sent_sent_at := Message.sent_at message;
                          notify_user_id := default "" receiver_id;
                          notify_message_data := to_dict message |}, db)
            else (Failure 400 "File type not allowed", db)
  end.

(** The query of [get_updates], ordered and limited. *)
Definition updates_query (user : User.t) (offset : option Z) (limit_ : Z)
    (db : DB) : list Message.t :=
  limit limit_
    (order_by Message.id
       (List.filter
          (λ m, bool_decide (Message.receiver_id m = User.user_id user)
                && match offset with
                   | None => true
                   | Some offset => bool_decide (Message.id m > offset)
                   end)
          (messages db))).

(** The long-poll loop: the query is run once per second, at most [n]
    times, until it returns a row.  No other writer runs in between.  A
    positive [timeout] is at least one second, so the loop body runs at
    least once and [messages] is bound. *)
Fixpoint long_poll (n : nat) (run : DB → list Message.t) (db : DB) : list Message.t :=
  match n with
  | O => []
  | S n' =>
      let messages := run db in
      match messages, n' with
      | [], S _ => long_poll n' run db
      | _, _ => messages
      end
  end.

Record updates := {
  updates_list : list message_dict;
  next_offset : Z
}.

(** One turn of the loop over the rows returned to the poller. *)
Definition deliver (acc : list message_dict * Z * DB) (message : Message.t)
    : list message_dict * Z * DB :=
  let '(updates, max_update_id, db) := acc in
  (updates ++ [to_dict message],
   Z.max max_update_id (Message.id message),
   if Message.is_delivered message then db
   else update_message (Message.id message)
          (λ m, Message.with_read_count (Message.read_count m + 1)
                  (Message.with_is_delivered true m)) db).

Definition get_updates (user : User.t) (offset limit_arg timeout_arg : option Z)
    (db : DB) : response updates * DB :=
  let limit_ := default POLLING_LIMIT limit_arg in
  let timeout := default 0 timeout_arg in
  let messages :=
    if decide (timeout > 0)
    then long_poll (Z.to_nat timeout) (updates_query user offset limit_) db
    else updates_query user offset limit_ db in
  let '(updates, max_update_id, db) :=
    foldl deliver ([], or_zero offset, db) messages in
  let next_offset :=
    match updates with
    | [] => or_zero offset
    | _ => max_update_id + 1
    end in
  (Success {| updates_list := updates; next_offset := next_offset |}, db).

Definition get_chat_history (user : User.t) (other_user_id : option string)
    (limit_arg offset_arg : option Z) (db : DB)
    : response (list message_dict) * DB :=
  let limit_ := default 50 limit_arg in
  let offset := default 0 offset_arg in
  if negb (truthy_str other_user_id) then (Failure 400 "User ID is required", db)
  else
    let messages :=
      limit limit_
        (drop (Z.to_nat offset)
           (order_by (λ m, - Message.sent_at m)
              (List.filter
                 (λ m, (bool_decide (Message.sender_id m = User.user_id user)
                        && bool_decide (Some (Message.receiver_id m) = other_user_id))
                       || (bool_decide (Some (Message.sender_id m) = other_user_id)
                           && bool_decide (Message.receiver_id m = User.user_id user)))
                 (messages db)))) in
    (Success (map to_dict messages), db).

(** The name [send_file] is bound, when [download_file] runs, to the route
    of that name behind [require_api_key], not to Flask's function: the call
    [send_file(message.file_path)] enters the wrapper, which finds the
    caller's row by the key of the request, stamps it at [reentered_at] and
    calls the handler with one argument too many.  The [TypeError] is caught
    by [except], after [read_count] is committed, and no file is sent. *)
Definition download_file (user : User.t) (file_id : string) (reentered_at : Z)
    (db : DB) : response string * DB :=
  match first (λ m, bool_decide (Message.file_id m = Some file_id)) (messages db) with
  | None => (Failure 404 "File not found", db)
  | Some message =>
      if bool_decide (Message.sender_id message ≠ User.user_id user)
         && bool_decide (Message.receiver_id message ≠ User.user_id user)
      then (Failure 403 "Access denied", db)
      else if negb (path_exists (Message.file_path message) db)
      then (Failure 404 "File not found on server", db)
      else
        let db := update_message (Message.id message)
                    (λ m, Message.with_read_count (Message.read_count m + 1) m) db in
        let db := update_user (User.id user)
                    (User.with_last_activity reentered_at) db in
        (Failure 500 ("Download failed: send_file() takes 0 positional " +:+
                      "arguments but 1 was given"), db)
  end.

Definition set_webhook (user : User.t) (data : option json) (now : Z) (db : DB)
    : response unit * DB :=
  if no_data data || negb (truthy_str (default ∅ data !! "url"))
  then (Failure 400 "Webhook URL is required", db)
  else
    let data := default ∅ data in
    let kept :=
      List.filter (λ w, negb (bool_decide (UserWebhook.user_id w = User.user_id user)))
                  (webhooks db) in
    let webhook :=
      UserWebhook.mk (next_id (map UserWebhook.id kept)) (User.user_id user)
        (default "" (data !! "url")) (data !! "secret_token") true now None in
    (Success (), set_webhooks (kept ++ [webhook]) db).

(** [get_me] reads the caller's row; the megabyte and percentage figures of
    its answer are floating-point functions of [storage_used]. *)
Definition get_me (user : User.t) (db : DB) : response User.t * DB :=
  (Success user, db).

(** ** The system as a transition system *)

(** What can happen to the database: a request to a route, the notification
    thread started by a send, one cycle of the background thread, and the
    start-up of the application.  A request carries what the handler reads
    beyond the state: its key, its body, the tokens drawn for it, the length
    of a multipart request, and the clock reads made after the handler's
    own. *)
Inductive request :=
  | InitDb (api_key : string)
  | RegisterUser (data : option json) (api_key : string)
  | SendMessage (key : option string) (data : option json) (message_id : string)
                (inserted_at : Z)
  | SendFile (key : option string) (request_length : Z)
             (upload : option file_storage) (form : json)
             (file_id message_id : string) (inserted_at : Z)
  | GetUpdates (key : option string) (offset limit_arg timeout_arg : option Z)
  | GetChatHistory (key : option string) (other_user_id : option string)
                   (limit_arg offset_arg : option Z)
  | DownloadFile (key : option string) (file_id : string) (reentered_at : Z)
  | SetWebhook (key : option string) (data : option json)
  | GetMe (key : option string)
  | WebhookThread (user_id : string) (message_data : message_dict)
                  (post : post_outcome)
  | BackgroundCycle.

(** The state after [r] is served at time [now]. *)
Definition handle (now : Z) (r : request) (db : DB) : DB :=
  match r with
  | InitDb api_key => init_db api_key now db
  | RegisterUser data api_key => (register_user data api_key now db).2
  | SendMessage key data message_id inserted_at =>
      (require_api_key key now
         (λ user, send_message user data message_id now inserted_at) db).2
  | SendFile key request_length upload form file_id message_id inserted_at =>
      (require_api_key key now
         (λ user, send_file user (parse_files request_length upload) form
                    file_id message_id now inserted_at) db).2
  | GetUpdates key offset limit_arg timeout_arg =>
      (require_api_key key now
         (λ user, get_updates user offset limit_arg timeout_arg) db).2
  | GetChatHistory key other_user_id limit_arg offset_arg =>
      (require_api_key key now
         (λ user, get_chat_history user other_user_id limit_arg offset_arg) db).2
  | DownloadFile key file_id reentered_at =>
      (require_api_key key now
         (λ user, download_file user file_id reentered_at) db).2
  | SetWebhook key data =>
      (require_api_key key now (λ user, set_webhook user data now) db).2
  | GetMe key => (require_api_key key now get_me db).2
  | WebhookThread user_id message_data post =>
      (send_webhook_notification user_id message_data post now db).2
  | BackgroundCycle => background_cycle now db
  end.

End Handlers.

(** The database created by [db.create_all()]. *)
Definition empty_db : DB := mkDB [] [] [] ∅.

(** The states the application can be in. *)
Inductive reachable (secure_filename : string → string) : DB → Prop :=
  | reachable_empty : reachable secure_filename empty_db
  | reachable_handle now r db :
      reachable secure_filename db →
      reachable secure_filename (handle secure_filename now r db).

(** The primary keys of the stored messages are positive and distinct. *)
Definition ids_positive (rows : list Message.t) : Prop :=
  Forall (λ m, 0 < Message.id m) rows.

Definition ids_wf (rows : list Message.t) : Prop :=
  NoDup (map Message.id rows) ∧ ids_positive rows.

(** The ledger of [user]: what the stored messages it sent add up to. *)
Definition sent_by (user_id : string) (db : DB) : list Message.t :=
  List.filter (λ m, bool_decide (Message.sender_id m = user_id)) (messages db).

Definition stored_file_bytes (user_id : string) (db : DB) : Z :=
  foldr Z.add 0 (omap Message.file_size (sent_by user_id db)).

Definition stored_message_count (user_id : string) (db : DB) : Z :=
  Z.of_nat (length (sent_by user_id db)).

(** ** Notions used in the statements *)

(** The checks of [send_file] that come before the file-type check. *)
Definition reaches_type_check (sender : User.t) (file_ : file_storage)
    (form : json) (db : DB) : Prop :=
  filename file_ ≠ "" ∧
  truthy_str (form !! "receiver_id") = true ∧
  content_length file_ ≤ 30 * 1024 * 1024 ∧
  User.storage_used sender + content_length file_ ≤ MAX_USER_STORAGE ∧
  receiver_exists (form !! "receiver_id") db = true.

(** The rows a poll returns are those of its query, with or without a
    timeout. *)
Definition polled (user : User.t) (offset limit_arg timeout_arg : option Z)
    (db : DB) : list Message.t :=
  updates_query user offset (default POLLING_LIMIT limit_arg) db.

Definition mark_delivered (db : DB) (message : Message.t) : DB :=
  if Message.is_delivered message then db
  else update_message (Message.id message)
         (λ m, Message.with_read_count (Message.read_count m + 1)
                 (Message.with_is_delivered true m)) db.

(** What one request or task does to the message table: it deletes rows,
    or it appends one row under a fresh key, or it rewrites rows in place,
    keeping their keys, each either untouched or changed as [R] allows. *)
Definition transition (R : relation Message.t) (ms ms' : list Message.t) : Prop :=
  ms' `sublist_of` ms ∨
  (∃ new, ms' = ms ++ [new] ∧ Message.id new = next_id (map Message.id ms)) ∨
  (∃ h, ms' = map h ms ∧
        ∀ m, m ∈ ms → Message.id (h m) = Message.id m ∧ (h m = m ∨ R m (h m))).

(** The change a request may make to a stored message. *)
Definition delivered_once (m : Message.t) : Message.t :=
  Message.with_read_count (Message.read_count m + 1) (Message.with_is_delivered true m).

Definition allowed_change (r : request) (m m' : Message.t) : Prop :=
  match r with
  | GetUpdates _ _ _ _ =>
      Message.is_delivered m = false ∧ m' = delivered_once m
  | WebhookThread _ _ _ => m' = Message.with_webhook_sent true m
  | DownloadFile _ file_id _ =>
      Message.file_id m = Some file_id ∧
      m' = Message.with_read_count (Message.read_count m + 1) m
  | _ => False
  end.

(** Whether the loop of [get_updates] over [xs] marks the row [m]. *)
Definition touched (xs : list Message.t) (m : Message.t) : bool :=
  existsb (λ x, bool_decide (Message.id x = Message.id m)
                && negb (Message.is_delivered x)) xs.

(** ** Scenarios *)

Definition MiB : Z := 1024 * 1024.

Definition registration (name : string) : option json :=
  Some (<["user_id" := name]>
          (<["username" := name]> (<["email" := name +:+ "@example.com"]> ∅))).

(** Alice and Bob have registered. *)
Definition two_users : DB :=
  handle id 0 (RegisterUser (registration "bob") "key-bob")
    (handle id 0 (RegisterUser (registration "alice") "key-alice") empty_db).

Definition text_to_bob : option json :=
  Some (<["receiver_id" := "bob"]> (<["text" := "hi"]> ∅)).

(** Alice has sent Bob a text at time 10. *)
Definition after_text : DB :=
  handle id 10 (SendMessage (Some "key-alice") text_to_bob "m1" 10) two_users.

Definition upload (size : Z) : file_storage :=
  {| filename := "notes.txt"; content_type := Some "text/plain";
     content_length := size |}.

Definition to_bob : json := <["receiver_id" := "bob"]> ∅.

(** Then a file of 5 bytes at time 20. *)
Definition after_file : DB :=
  handle id 20
    (SendFile (Some "key-alice") 512 (Some (upload 5)) to_bob "f1" "m2" 20)
    after_text.

(** Bob has registered a webhook after Alice's text. *)
Definition hooked : DB :=
  handle id 15
    (SetWebhook (Some "key-bob") (Some (<["url" := "http://bob.example/hook"]> ∅)))
    after_text.

(** The background thread runs a day later, at time 90000. *)
Definition next_day : DB := handle id 90000 BackgroundCycle after_text.

Definition alice_row (storage_used message_count : Z) : User.t :=
  User.mk 1 "alice" "alice" "alice@example.com" "key-alice"
          storage_used message_count true false 0 0.

Definition bob_row : User.t :=
  User.mk 2 "bob" "bob" "bob@example.com" "key-bob" 0 0 true false 0 0.

(** A file of 30 MiB sent by Alice to Bob at time [i]. *)
Definition big_file (i : Z) (tag : string) : Message.t :=
  Message.mk i ("m" +:+ tag) file (Some "") (Some ("f" +:+ tag)) (Some "a.zip")
    (Some ("f" +:+ tag +:+ "_a.zip"))
    (Some ("telegram_files/f" +:+ tag +:+ "_a.zip")) (Some (30 * MiB))
    None None None None "alice" "alice" "bob" i (i + 86400) false 0 false.

Definition five_files : list Message.t :=
  [big_file 1 "1"; big_file 2 "2"; big_file 3 "3"; big_file 4 "4"; big_file 5 "5"].

(** Alice is billed 150 MiB for five stored files of 30 MiB; the files are
    on disk or not. *)
Definition over_cap (on_disk : bool) : DB :=
  mkDB [alice_row (150 * MiB) 5; bob_row] five_files []
       (if on_disk then list_to_set (omap Message.file_path five_files) else ∅).

(** The ledger of a user, as the table has it. *)
Definition ledger (user_id : string) (db : DB) : option (Z * Z) :=
  (λ u, (User.storage_used u, User.message_count u)) <$>
  first (λ u, bool_decide (User.user_id u = user_id)) (users db).

(** Alice's two messages, as stored after [after_file]. *)
Definition text_message : Message.t :=
  Message.mk 1 "m1" text (Some "hi") None None None None None None
    None None None "alice" "alice" "bob" 10 86410 false 0 false.

Definition notes_message : Message.t :=
  Message.mk 2 "m2" file (Some "") (Some "f1") (Some "notes.txt")
    (Some "f1_notes.txt") (Some "telegram_files/f1_notes.txt") (Some 5)
    (Some "text/plain") None None None "alice" "alice" "bob" 20 86420 false 0 false.

#[global] Instance ids_wf_dec rows : Decision (ids_wf rows).
Proof. unfold ids_wf, ids_positive. apply _. Defined.

(** ** Notions used in further statements *)

(** The API key a request carries, for the routes behind
    [require_api_key]. *)
Definition request_key (r : request) : option (option string) :=
  match r with
  | SendMessage key _ _ _ | SendFile key _ _ _ _ _ _ | GetUpdates key _ _ _
  | GetChatHistory key _ _ _ | DownloadFile key _ _ | SetWebhook key _
  | GetMe key => Some key
  | InitDb _ | RegisterUser _ _ | WebhookThread _ _ _ | BackgroundCycle => None
  end.

(** The registrations of a user. *)
Definition webhooks_of (user_id : string) (db : DB) : list UserWebhook.t :=
  List.filter (λ w, bool_decide (UserWebhook.user_id w = user_id)) (webhooks db).

(** The cutoff of the expiry sweep run at [now]. *)
Definition expired (now : Z) (m : Message.t) : Prop :=
  Message.sent_at m < now - hours MESSAGE_AUTO_DELETE_HOURS.

(** ** The state invariant *)

(** What a stored message adds to the ledger of [user_id]. *)
Definition billed_bytes (user_id : string) (m : Message.t) : Z :=
  if bool_decide (Message.sender_id m = user_id)
  then default 0 (Message.file_size m) else 0.

Definition billed_count (user_id : string) (m : Message.t) : Z :=
  if bool_decide (Message.sender_id m = user_id) then 1 else 0.

Definition total (w : Message.t → Z) (ms : list Message.t) : Z :=
  foldr (λ m acc, w m + acc) 0 ms.

#[global] Instance message_type_eq_dec : EqDecision message_type.
Proof. solve_decision. Defined.

(** A message as the send routes create it: file fields exactly on a file
    message, and a size between 0 and 30 MiB. *)
Definition message_ok (m : Message.t) : Prop :=
  (if decide (Message.message_type m = file)
   then is_Some (Message.file_size m) ∧ truthy_str (Message.file_path m) = true
   else Message.file_size m = None ∧ Message.file_path m = None) ∧
  0 ≤ default 0 (Message.file_size m) ≤ 30 * 1024 * 1024.

(** The ledger of a user against the stored messages: [storage_used] is
    the bytes of the files it sent, within the per-user cap, and
    [message_count] is not below the number of messages it sent. *)
Definition ledger_ok (ms : list Message.t) (u : User.t) : Prop :=
  User.storage_used u = total (billed_bytes (User.user_id u)) ms ∧
  User.storage_used u ≤ MAX_USER_STORAGE ∧
  total (billed_count (User.user_id u)) ms ≤ User.message_count u.

Definition tables_ok (us : list User.t) (ms : list Message.t) : Prop :=
  ids_wf ms ∧
  NoDup (map User.id us) ∧
  NoDup (map User.user_id us) ∧
  Forall message_ok ms ∧
  Forall (λ m, Message.sender_id m ∈ map User.user_id us) ms ∧
  Forall (ledger_ok ms) us.

Definition state_ok (db : DB) : Prop := tables_ok (users db) (messages db).

(** An upload has a length that is not negative. *)
Definition sane (r : request) : Prop :=
  match r with
  | SendFile _ _ (Some file_) _ _ _ _ => 0 ≤ content_length file_
  | _ => True
  end.

(** The state after a sequence of requests and tasks, each at its time. *)
Definition serve (secure_filename : string → string)
    (trace : list (Z * request)) (db : DB) : DB :=
  foldl (λ db e, handle secure_filename e.1 e.2 db) db trace.

#[global] Instance message_ok_dec m : Decision (message_ok m).
Proof. unfold message_ok. case_decide; apply _. Defined.

#[global] Instance ledger_ok_dec ms u : Decision (ledger_ok ms u).
Proof. unfold ledger_ok. apply _. Defined.

#[global] Instance state_ok_dec db : Decision (state_ok db).
Proof. unfold state_ok, tables_ok. apply _. Defined.

#[global] Instance sane_dec r : Decision (sane r).
Proof. destruct r as [| | |? ? [?|] ? ? ? ?| | | | | | |]; simpl; apply _. Defined.

(** A rewrite of the row with key [pk], as [update_user] does it. *)
Definition at_pk (pk : Z) (f : User.t → User.t) (u : User.t) : User.t :=
  if decide (User.id u = pk) then f u else u.

(** A rewrite of the row with key [pk], as [update_message] does it. *)
Definition at_message (pk : Z) (f : Message.t → Message.t) (m : Message.t)
    : Message.t :=
  if decide (Message.id m = pk) then f m else m.

(** A rewrite of a message that keeps what the invariant reads: its key,
    its sender, its type, its file and its times. *)
Definition keeps_billing (h : Message.t → Message.t) : Prop :=
  ∀ m, Message.id (h m) = Message.id m ∧
       Message.sender_id (h m) = Message.sender_id m ∧
       Message.message_type (h m) = Message.message_type m ∧
       Message.file_size (h m) = Message.file_size m ∧
       Message.file_path (h m) = Message.file_path m ∧
       Message.sent_at (h m) = Message.sent_at m ∧
       Message.expires_at (h m) = Message.expires_at m.

(** One turn of the global loop that does not break. *)
Definition global_turn (db : DB) (message : Message.t) : DB :=
  let file_size := default 0 (Message.file_size message) in
  let db := if path_exists (Message.file_path message) db
            then os_remove (Message.file_path message) db else db in
  let db :=
    match sender_of message db with
    | Some sender =>
        update_user (User.id sender)
          (λ u, User.with_message_count (Z.max 0 (User.message_count u - 1))
                  (User.with_storage_used
                     (Z.max 0 (User.storage_used u - file_size)) u)) db
    | None => db
    end in
  delete_message (Message.id message) db.

(** Every stored file is on disk, each under a path of its own. *)
Definition files_on_disk (db : DB) : Prop :=
  NoDup (map Message.file_path (List.filter has_file_size (messages db))) ∧
  Forall (λ m, has_file_size m = true →
               path_exists (Message.file_path m) db = true) (messages db).

#[global] Instance files_on_disk_dec db : Decision (files_on_disk db).
Proof. unfold files_on_disk. apply _. Defined.

(** Alice and Bob register, Alice sends Bob a text and then a file. *)
Definition example_trace : list (Z * request) :=
  [(0, RegisterUser (registration "alice") "key-alice");
   (0, RegisterUser (registration "bob") "key-bob");
   (10, SendMessage (Some "key-alice") text_to_bob "m1" 10);
   (20, SendFile (Some "key-alice") 512 (Some (upload 5)) to_bob "f1" "m2" 20)].

(** Alice's row after [example_trace]. *)
Definition alice_after : User.t :=
  User.mk 1 "alice" "alice" "alice@example.com" "key-alice" 5 2 true false 0 20.

(** A reply of Alice to a message that is not stored. *)
Definition reply_to_gone : option json :=
  Some (<["receiver_id" := "bob"]>
          (<["text" := "re"]> (<["reply_to_message_id" := "gone"]> ∅))).

(** What Bob's first poll returns after Alice's text. *)
Definition first_page : updates :=
  {| updates_list := [to_dict text_message]; next_offset := 2 |}.

(** Two states with the same webhook registrations and the same accounts,
    row by row. *)
Definition same_accounts (db db' : DB) : Prop :=
  webhooks db' = webhooks db ∧
  map User.user_id (users db') = map User.user_id (users db).

(** Twenty-four files of 30 MiB sent by Alice after her text, 720 MiB in
    all, none of them on disk. *)
Definition bulk_files : list Message.t :=
  imap (λ i tag, big_file (Z.of_nat i + 2) tag)
    ["a"; "b"; "c"; "d"; "e"; "f"; "g"; "h"; "i"; "j"; "k"; "l";
     "m"; "n"; "o"; "p"; "q"; "r"; "s"; "t"; "u"; "v"; "w"; "x"]%string.

Definition files_lost : DB :=
  mkDB [alice_row (720 * MiB) 25; bob_row] (text_message :: bulk_files) [] ∅.

(** Alice's second text to Bob. *)
Definition second_text : option json :=
  Some (<["receiver_id" := "bob"]> (<["text" := "again"]> ∅)).


(** Bob polls after Alice's text, and then Alice sends her file: Bob's next
    poll from the start finds one delivered and one undelivered message. *)
Definition after_poll : DB :=
  handle id 15 (GetUpdates (Some "key-bob") None None None) after_text.

Definition file_after_poll : DB :=
  handle id 20
    (SendFile (Some "key-alice") 512 (Some (upload 5)) to_bob "f1" "m2" 20)
    after_poll.

(** Eight users register and send four files of 25 MiB each, one after the
    other: 800 MiB in all, every account at its cap. *)
Definition crowd : list string :=
  ["u1"; "u2"; "u3"; "u4"; "u5"; "u6"; "u7"; "u8"]%string.

Definition crowd_uploads : list (string * string) :=
  flat_map (λ round, map (λ name, (round, name)) crowd) ["a"; "b"; "c"; "d"]%string.

Definition crowd_trace : list (Z * request) :=
  map (λ name, (0, RegisterUser (registration name) ("key-" +:+ name))) crowd ++
  imap (λ i p,
          (100 + Z.of_nat i,
           SendFile (Some ("key-" +:+ p.2)) (25 * MiB + 1024)
             (Some (upload (25 * MiB))) (<["receiver_id" := "u1"]> ∅)
             (p.1 +:+ "-" +:+ p.2) ("m-" +:+ p.1 +:+ "-" +:+ p.2)
             (100 + Z.of_nat i)))
       crowd_uploads.

Definition full_store : DB := serve id crowd_trace empty_db.

(** * Properties *)

(** ** File types *)

Example allowed_file_pdf : allowed_file "report.final.PDF" = true.
Proof. vm_compute. reflexivity. Qed.
Example allowed_file_nodot : allowed_file "README" = false.
Proof. vm_compute. reflexivity. Qed.
Example allowed_size : size ALLOWED_EXTENSIONS = 25%nat.
Proof. vm_compute. reflexivity. Qed.


(** ** Strings *)

Lemma contains_char_app c (a b : string) :
  contains_char c (a +:+ b) = contains_char c a || contains_char c b.
Proof.
  induction a as [|x a IH]; simpl; [done|].
  destruct (Ascii.eqb x c); [done|apply IH].
Qed.

Lemma rsplit_last_None sep s :
  rsplit_last sep s = None ↔ contains_char sep s = false.
Proof.
  induction s as [|x s IH]; simpl; [done|].
  destruct (rsplit_last sep s) as [[before after]|].
  - destruct (Ascii.eqb x sep); split; try done.
    intros H. apply IH in H. done.
  - destruct (Ascii.eqb x sep); split; try done.
    intros _. by apply IH.
Qed.

Lemma rsplit_last_Some sep s before after :
  rsplit_last sep s = Some (before, after) ↔
  s = before +:+ String sep after ∧ contains_char sep after = false.
Proof.
  revert before. induction s as [|x s IH]; intros before; simpl.
  - split; [done|]. intros [H _]. by destruct before.
  - destruct (rsplit_last sep s) as [[b a]|] eqn:E.
    + split.
      * intros [= <- <-]. destruct (proj1 (IH b) eq_refl) as [-> ?]. done.
      * intros [H Hno]. destruct before as [|y before]; simpl in H.
        -- injection H as -> ->.
           apply rsplit_last_None in Hno. congruence.
        -- injection H as -> H.
           assert (Some (b, a) = Some (before, after)) as E'
             by (apply IH; done).
           congruence.
    + apply rsplit_last_None in E. split.
      * destruct (Ascii.eqb_spec x sep) as [->|]; [|done].
        intros [= <- <-]. done.
      * intros [H Hno]. destruct before as [|y before]; simpl in H.
        -- injection H as -> ->. by rewrite Ascii.eqb_refl.
        -- injection H as -> ->. rewrite contains_char_app in E. simpl in E.
           rewrite Ascii.eqb_refl in E. by destruct (contains_char sep before).
Qed.

Lemma allowed_file_iff fn :
  allowed_file fn = true ↔
  ∃ stem ext, fn = stem +:+ "." +:+ ext ∧ contains_char "." ext = false ∧
              lower ext ∈ ALLOWED_EXTENSIONS.
Proof.
  unfold allowed_file, rsplit1. split.
  - intros [Hdot H]%andb_true_iff.
    destruct (rsplit_last "." fn) as [[stem ext]|] eqn:E; simpl in H; [|done].
    apply rsplit_last_Some in E as [-> Hno].
    exists stem, ext. split_and!; [done|done|by apply bool_decide_eq_true in H].
  - intros (stem & ext & -> & Hno & Hin).
    assert (rsplit_last "." (stem +:+ "." +:+ ext) = Some (stem, ext)) as ->
      by (apply rsplit_last_Some; done).
    rewrite contains_char_app. simpl.
    rewrite orb_true_r. simpl. by apply bool_decide_eq_true.
Qed.

Lemma allowed_upper ext :
  ext ∈ ALLOWED_EXTENSIONS →
  contains_char "." (upper ext) = false ∧ lower (upper ext) ∈ ALLOWED_EXTENSIONS.
Proof.
  unfold ALLOWED_EXTENSIONS at 1. rewrite elem_of_list_to_set.
  intros H.
  repeat (apply elem_of_cons in H as [->|H];
          [split; [reflexivity|apply (bool_decide_unpack _); vm_compute; exact I]|]).
  by apply elem_of_nil in H.
Qed.

(** ** Sending a file *)

Lemma truthy_filename fn : fn ≠ "" → truthy_str (Some fn) = true.
Proof. by destruct fn. Qed.

Lemma allowed_file_nonempty fn : allowed_file fn = true → fn ≠ "".
Proof. by intros H ->. Qed.

(** What [send_file] answers once the file is there, named and addressed. *)
Lemma send_file_cases sf sender file_ form fid mid now inserted_at db :
  filename file_ ≠ "" →
  truthy_str (form !! "receiver_id") = true →
  let r := (send_file sf sender (Files (Some file_)) form fid mid now inserted_at db).1 in
  if decide (content_length file_ > 30 * 1024 * 1024)
  then r = Failure 400 "File size exceeds 30MB limit"
  else if decide (User.storage_used sender + content_length file_ > MAX_USER_STORAGE)
  then r = Failure 400 "Storage limit exceeded"
  else if negb (receiver_exists (form !! "receiver_id") db)
  then r = Failure 404 "Receiver user not found"
  else if allowed_file (filename file_)
  then ∃ body, r = Success body
  else r = Failure 400 "File type not allowed".
Proof.
  intros Hname Hrecv. unfold send_file.
  rewrite bool_decide_eq_false_2 by done. rewrite Hrecv. simpl.
  repeat case_decide; try done.
  destruct (receiver_exists _ db); simpl; [|done].
  destruct (reply_link _ db) as [rs rt].
  pose proof (truthy_filename _ Hname) as Ht. unfold truthy_str in Ht.
  rewrite Ht. simpl.
  destruct (allowed_file (filename file_)); simpl; eauto.
Qed.

Lemma send_file_no_dot sf sender files form fid mid now inserted_at db :
  (∀ file_, files = Files (Some file_) →
            contains_char "." (filename file_) = false) →
  ∀ body, (send_file sf sender files form fid mid now inserted_at db).1 ≠ Success body.
Proof.
  intros Hno body. unfold send_file.
  destruct files as [|[file_|]]; [done| |done].
  specialize (Hno file_ eq_refl).
  case_bool_decide; [done|].
  destruct (truthy_str (form !! "receiver_id")); simpl; [|done].
  repeat case_decide; try done.
  destruct (receiver_exists _ db); simpl; [|done].
  destruct (reply_link _ db) as [rs rt].
  unfold allowed_file. rewrite Hno. simpl. rewrite andb_false_r. done.
Qed.

(** C9: the type check of [send_file] is [allowed_file], which holds exactly
    of the names [stem.ext] whose text [ext] after the last dot is, in lower
    case, one of the 25 allowed extensions.  A call that reaches the type
    check is answered "File type not allowed" exactly when the check fails;
    a name without a dot fails it, is never accepted, and gets that answer
    whenever the call reaches the check; an allowed extension written in
    upper case passes. *)
Theorem allowed_file_type_check :
  (∀ fn, allowed_file fn = true ↔
         ∃ stem ext, fn = stem +:+ "." +:+ ext ∧ contains_char "." ext = false ∧
                     lower ext ∈ ALLOWED_EXTENSIONS) ∧
  size ALLOWED_EXTENSIONS = 25%nat ∧
  (∀ sf sender file_ form fid mid now inserted_at db,
     reaches_type_check sender file_ form db →
     let r := (send_file sf sender (Files (Some file_)) form fid mid now inserted_at db).1 in
     (r = Failure 400 "File type not allowed" ↔ allowed_file (filename file_) = false) ∧
     ((∃ body, r = Success body) ↔ allowed_file (filename file_) = true)) ∧
  (∀ fn, contains_char "." fn = false → allowed_file fn = false) ∧
  (∀ sf sender file_ form fid mid now inserted_at db body,
     contains_char "." (filename file_) = false →
     (send_file sf sender (Files (Some file_)) form fid mid now inserted_at db).1 ≠ Success body) ∧
  (∀ stem ext, ext ∈ ALLOWED_EXTENSIONS →
               allowed_file (stem +:+ "." +:+ upper ext) = true).
Proof.
  split_and!.
  - apply allowed_file_iff.
  - by vm_compute.
  - intros sf sender file_ form fid mid now inserted_at db (Hname & Hrecv & Hsize & Hquota & Hex) r.
    pose proof (send_file_cases sf sender file_ form fid mid now inserted_at db Hname Hrecv) as H.
    cbv zeta in H. fold r in H.
    rewrite !decide_False in H by lia. rewrite Hex in H. cbn [negb] in H.
    destruct (allowed_file (filename file_)).
    + destruct H as [body ->]. split; split; try done; eauto.
    + rewrite H. split; split; try done. by intros [? ?].
  - intros fn Hno. unfold allowed_file. by rewrite Hno.
  - intros sf sender file_ form fid mid now inserted_at db body Hno.
    apply send_file_no_dot. by intros ? [= <-].
  - intros stem ext [Hno Hin]%allowed_upper. apply allowed_file_iff. eauto.
Qed.

(** The type check at three concrete names and one concrete call. *)
Lemma allowed_file_type_check_witness :
  allowed_file "photo.JPG" = true ∧ allowed_file "Makefile" = false ∧
  allowed_file "a.b.PPTX" = true.
Proof.
  destruct allowed_file_type_check as (Hiff & _ & _ & Hnodot & _ & Hupper).
  split_and!.
  - apply (Hupper "photo" "jpg"). apply (bool_decide_unpack _). vm_compute. exact I.
  - apply Hnodot. reflexivity.
  - apply Hiff. exists "a.b", "PPTX". split_and!; [reflexivity|reflexivity|].
    apply (bool_decide_unpack _). vm_compute. exact I.
Defined.

(** C6: for a file that passes the size and type checks, sent to a named
    receiver that exists, [send_file] answers "Storage limit exceeded"
    exactly when the sender's [storage_used] plus the file's size is above
    [MAX_USER_STORAGE]; otherwise, and so when the sum is exactly the cap,
    the send succeeds. *)
Theorem send_file_quota_boundary sf sender file_ form fid mid now inserted_at db
    (Hsize : content_length file_ ≤ 30 * 1024 * 1024)
    (Htype : allowed_file (filename file_) = true)
    (Hnamed : truthy_str (form !! "receiver_id") = true)
    (Hreceiver : receiver_exists (form !! "receiver_id") db = true) :
  let r := (send_file sf sender (Files (Some file_)) form fid mid now inserted_at db).1 in
  (r = Failure 400 "Storage limit exceeded" ↔
   User.storage_used sender + content_length file_ > MAX_USER_STORAGE) ∧
  ((∃ body, r = Success body) ↔
   User.storage_used sender + content_length file_ ≤ MAX_USER_STORAGE) ∧
  (User.storage_used sender + content_length file_ = MAX_USER_STORAGE →
   ∃ body, r = Success body).
Proof.
  intros r.
  pose proof (send_file_cases sf sender file_ form fid mid now inserted_at db
                (allowed_file_nonempty _ Htype) Hnamed) as H.
  cbv zeta in H. fold r in H.
  rewrite decide_False in H by lia. rewrite Hreceiver, Htype in H. cbn [negb] in H.
  case_decide as Hq.
  - rewrite H. split_and!.
    + done.
    + split; [by intros [? ?]|lia].
    + lia.
  - destruct H as [body ->]. split_and!.
    + split; [done|lia].
    + split; [lia|eauto].
    + eauto.
Qed.

(** ** Tables *)

Lemma filter_bool {A} (p : A → bool) (l : list A) :
  List.filter p l = filter (λ x, Is_true (p x)) l.
Proof.
  induction l as [|x l IH]; [done|]. simpl. rewrite filter_cons, IH.
  destruct (p x); by simpl.
Qed.

Lemma elem_of_filter_bool {A} (p : A → bool) (l : list A) x :
  x ∈ List.filter p l ↔ p x = true ∧ x ∈ l.
Proof.
  rewrite filter_bool, list_elem_of_filter.
  by destruct (p x); simpl; intuition.
Qed.

Lemma filter_bool_sublist {A} (p : A → bool) (l : list A) :
  List.filter p l `sublist_of` l.
Proof. rewrite filter_bool. apply sublist_filter. Qed.

Lemma first_Some {A} (p : A → bool) (rows : list A) x :
  first p rows = Some x → p x = true ∧ x ∈ rows.
Proof.
  unfold first. intros H. apply elem_of_filter_bool.
  destruct (List.filter p rows); simplify_eq/=. by left.
Qed.

#[global] Instance key_le_trans {A} (key : A → Z) : Transitive (key_le key).
Proof. unfold key_le. intros x y z. lia. Qed.

#[global] Instance key_le_total {A} (key : A → Z) : Total (key_le key).
Proof. unfold key_le. intros x y. lia. Qed.

Lemma insert_by_Permutation {A} (key : A → Z) x (rows : list A) :
  insert_by key x rows ≡ₚ x :: rows.
Proof.
  induction rows as [|y rows IH]; simpl; [done|].
  case_decide; [done|]. rewrite IH. apply Permutation_swap.
Qed.

Lemma order_by_Permutation {A} (key : A → Z) (rows : list A) :
  order_by key rows ≡ₚ rows.
Proof.
  induction rows as [|x rows IH]; simpl; [done|].
  by rewrite insert_by_Permutation, IH.
Qed.

Lemma elem_of_order_by {A} (key : A → Z) (rows : list A) x :
  x ∈ order_by key rows ↔ x ∈ rows.
Proof. by rewrite order_by_Permutation. Qed.

Lemma insert_by_sorted {A} (key : A → Z) x (rows : list A) :
  StronglySorted (key_le key) rows →
  StronglySorted (key_le key) (insert_by key x rows).
Proof.
  induction 1 as [|y rows Hs IH Hy]; simpl.
  - by repeat constructor.
  - case_decide as Hle.
    + constructor; [by constructor|]. constructor; [done|].
      eapply Forall_impl; [exact Hy|]. unfold key_le. intros z Hz. lia.
    + constructor; [done|]. rewrite insert_by_Permutation.
      constructor; [|done]. unfold key_le. lia.
Qed.

Lemma order_by_sorted {A} (key : A → Z) (rows : list A) :
  StronglySorted (key_le key) (order_by key rows).
Proof.
  induction rows as [|x rows IH]; simpl; [constructor|].
  by apply insert_by_sorted.
Qed.

(** Rows of equal key keep the order of the table. *)
Example order_by_ties :
  order_by (λ p : Z * Z, p.2) [(1, 7); (2, 5); (3, 7); (4, 5)]
  = [(2, 5); (4, 5); (1, 7); (3, 7)].
Proof. reflexivity. Qed.

Lemma limit_sublist {A} n (rows : list A) : limit n rows `sublist_of` rows.
Proof. unfold limit. case_decide; [done|apply sublist_take]. Qed.

Lemma StronglySorted_sublist {A} (R : relation A) (l1 l2 : list A) :
  l1 `sublist_of` l2 → StronglySorted R l2 → StronglySorted R l1.
Proof.
  induction 1 as [|x l1 l2 Hsub IH|x l1 l2 Hsub IH]; intros Hs.
  - constructor.
  - apply StronglySorted_inv in Hs as [Hs Hall]. constructor; [by apply IH|].
    rewrite Forall_forall in *. intros y Hy. apply Hall.
    by eapply sublist_subseteq.
  - apply StronglySorted_inv in Hs as [Hs _]. by apply IH.
Qed.

(** ** Polling *)

Lemma long_poll_run n run db : n ≠ O → long_poll n run db = run db.
Proof.
  induction n as [|n IH]; [done|]. intros _. simpl.
  destruct (run db) eqn:E; [|done].
  destruct n; [done|]. rewrite IH by done. done.
Qed.

Lemma foldl_deliver ms updates max_update_id db :
  foldl deliver (updates, max_update_id, db) ms =
  (updates ++ map to_dict ms, foldl Z.max max_update_id (map Message.id ms),
   foldl mark_delivered db ms).
Proof.
  revert updates max_update_id db.
  induction ms as [|m ms IH]; intros updates mx db; simpl.
  - by rewrite app_nil_r.
  - rewrite IH. by rewrite <-app_assoc.
Qed.

Lemma get_updates_eq user offset limit_arg timeout_arg db :
  let ms := polled user offset limit_arg timeout_arg db in
  get_updates user offset limit_arg timeout_arg db =
  (Success {| updates_list := map to_dict ms;
              next_offset :=
                match ms with
                | [] => or_zero offset
                | _ => foldl Z.max (or_zero offset) (map Message.id ms) + 1
                end |},
   foldl mark_delivered db ms).
Proof.
  intros ms. unfold get_updates.
  assert ((if decide (default 0 timeout_arg > 0)
           then long_poll (Z.to_nat (default 0 timeout_arg))
                  (updates_query user offset (default POLLING_LIMIT limit_arg)) db
           else updates_query user offset (default POLLING_LIMIT limit_arg) db) = ms)
    as ->.
  { case_decide; [|done]. apply long_poll_run. lia. }
  rewrite foldl_deliver. simpl. by destruct ms.
Qed.

Lemma polled_elem_of user offset limit_arg timeout_arg db m :
  m ∈ polled user offset limit_arg timeout_arg db →
  m ∈ messages db ∧ Message.receiver_id m = User.user_id user ∧
  ∀ N, offset = Some N → N < Message.id m.
Proof.
  unfold polled, updates_query. intros H.
  apply (sublist_subseteq _ _ (limit_sublist _ _)) in H.
  apply elem_of_order_by, elem_of_filter_bool in H as [Hp Hin].
  apply andb_true_iff in Hp as [Hr Ho]. apply bool_decide_eq_true in Hr.
  split_and!; [done|done|]. intros N ->. apply bool_decide_eq_true in Ho. lia.
Qed.

Lemma polled_sorted user offset limit_arg timeout_arg db :
  StronglySorted (key_le Message.id) (polled user offset limit_arg timeout_arg db).
Proof.
  unfold polled, updates_query.
  eapply StronglySorted_sublist; [apply limit_sublist|apply order_by_sorted].
Qed.

Lemma foldl_max_ge (ids : list Z) a :
  a ≤ foldl Z.max a ids ∧ ∀ i, i ∈ ids → i ≤ foldl Z.max a ids.
Proof.
  revert a. induction ids as [|x ids IH]; intros a; simpl.
  - split; [lia|]. intros i Hi. by apply elem_of_nil in Hi.
  - destruct (IH (Z.max a x)) as [H1 H2]. split; [lia|].
    intros i [->|Hi]%elem_of_cons; [lia|by apply H2].
Qed.

Lemma foldl_max_attained (ids : list Z) a :
  foldl Z.max a ids = a ∨ foldl Z.max a ids ∈ ids.
Proof.
  revert a. induction ids as [|x ids IH]; intros a; simpl; [by left|].
  destruct (IH (Z.max a x)) as [H|H].
  - rewrite H. destruct (Z.max_spec a x) as [[_ ->]|[_ ->]]; [right; by left|by left].
  - right. by right.
Qed.

Lemma update_ids ms : map update_id (map to_dict ms) = map Message.id ms.
Proof. by rewrite <-list_fmap_compose. Qed.

Lemma elem_of_updates u ms :
  u ∈ map to_dict ms → ∃ m, m ∈ ms ∧ update_id u = Message.id m.
Proof. intros (m & -> & Hm)%list_elem_of_fmap. eauto. Qed.

Lemma polled_sublist user offset limit_arg timeout_arg db :
  ∃ rows, polled user offset limit_arg timeout_arg db `sublist_of` rows ∧
          rows ≡ₚ List.filter
                    (λ m, bool_decide (Message.receiver_id m = User.user_id user)
                          && match offset with
                             | None => true
                             | Some offset => bool_decide (Message.id m > offset)
                             end) (messages db).
Proof.
  eexists. split; [apply limit_sublist|]. apply order_by_Permutation.
Qed.

Lemma polled_NoDup user offset limit_arg timeout_arg db :
  NoDup (map Message.id (messages db)) →
  NoDup (map Message.id (polled user offset limit_arg timeout_arg db)).
Proof.
  intros Hnd.
  destruct (polled_sublist user offset limit_arg timeout_arg db) as (rows & Hsub & Hperm).
  apply (sublist_NoDup _ (map Message.id rows)); [|by apply fmap_sublist].
  change (NoDup (Message.id <$> rows)). rewrite Hperm.
  apply (sublist_NoDup _ (map Message.id (messages db))); [done|].
  apply fmap_sublist, filter_bool_sublist.
Qed.

Lemma sorted_strict {A} (key : A → Z) (l : list A) :
  StronglySorted (key_le key) l → NoDup (map key l) →
  StronglySorted Z.lt (map key l).
Proof.
  induction 1 as [|x l Hs IH Hall]; simpl; [constructor|].
  intros [Hx Hnd]%NoDup_cons. constructor; [by apply IH|].
  rewrite Forall_fmap. rewrite Forall_forall in *. intros y Hy. simpl.
  specialize (Hall y Hy). unfold key_le in Hall.
  assert (key x ≠ key y); [|lia].
  intros Heq. apply Hx. rewrite Heq. by apply list_elem_of_fmap_2.
Qed.

(** C4: a poll with offset [N] returns only messages whose sequence number
    is above [N]; and a later poll of the same receiver with the
    [next_offset] of the first, in whatever state the database then is,
    returns only sequence numbers above every one the first returned, so
    none of its messages again. *)
Theorem get_updates_cursor user N limit_arg timeout_arg db :
  ∃ body db',
    get_updates user (Some N) limit_arg timeout_arg db = (Success body, db') ∧
    (∀ u, u ∈ updates_list body → N < update_id u) ∧
    ∀ limit2 timeout2 db2, ∃ body2 db2',
      get_updates user (Some (next_offset body)) limit2 timeout2 db2
        = (Success body2, db2') ∧
      (∀ u1 u2, u1 ∈ updates_list body → u2 ∈ updates_list body2 →
                update_id u1 < update_id u2) ∧
      (∀ u2, u2 ∈ updates_list body2 →
             update_id u2 ∉ map update_id (updates_list body)).
Proof.
  rewrite get_updates_eq. eexists _, _. split; [reflexivity|]. simpl.
  set (ms := polled user (Some N) limit_arg timeout_arg db).
  set (next := match ms with
               | [] => or_zero (Some N)
               | _ => foldl Z.max (or_zero (Some N)) (map Message.id ms) + 1
               end).
  assert (∀ u, u ∈ map to_dict ms → update_id u < next) as Hbelow.
  { intros u (m & Hm & ->)%elem_of_updates. subst next.
    destruct ms as [|m0 ms0] eqn:E; [by apply elem_of_nil in Hm|].
    rewrite <-E in *.
    pose proof (proj2 (foldl_max_ge (map Message.id ms) (or_zero (Some N)))
                  (Message.id m) (list_elem_of_fmap_2 _ _ _ Hm)). lia. }
  split.
  - intros u (m & Hm & ->)%elem_of_updates.
    destruct (polled_elem_of user (Some N) limit_arg timeout_arg db m Hm)
      as (_ & _ & Hoff).
    by apply Hoff.
  - intros limit2 timeout2 db2. rewrite get_updates_eq.
    eexists _, _. split; [reflexivity|]. simpl.
    assert (∀ u2, u2 ∈ map to_dict (polled user (Some next) limit2 timeout2 db2) →
                  next < update_id u2) as Habove.
    { intros u2 (m2 & Hm2 & ->)%elem_of_updates.
      destruct (polled_elem_of user (Some next) limit2 timeout2 db2 m2 Hm2)
        as (_ & _ & Hoff).
      by apply Hoff. }
    split.
    + intros u1 u2 H1 H2. specialize (Hbelow u1 H1). specialize (Habove u2 H2). lia.
    + intros u2 H2 (u1 & Heq & H1)%list_elem_of_fmap.
      specialize (Hbelow u1 H1). specialize (Habove u2 H2). lia.
Qed.

(** C5: on a store whose sequence numbers are positive and distinct, a poll
    returns its messages in ascending order of sequence number; when it
    returns some, [next_offset] is their largest sequence number plus one;
    when it returns none, [next_offset] is the offset given, or 0 when none
    was given. *)
Theorem get_updates_next_offset user offset limit_arg timeout_arg db
    (Hwf : ids_wf (messages db)) :
  ∃ body db',
    get_updates user offset limit_arg timeout_arg db = (Success body, db') ∧
    StronglySorted Z.lt (map update_id (updates_list body)) ∧
    match updates_list body with
    | [] => next_offset body = default 0 offset
    | _ => (∀ u, u ∈ updates_list body → update_id u + 1 ≤ next_offset body) ∧
           (∃ u, u ∈ updates_list body ∧ next_offset body = update_id u + 1)
    end.
Proof.
  destruct Hwf as [Hnd Hpos].
  rewrite get_updates_eq. eexists _, _. split; [reflexivity|]. simpl.
  set (ms := polled user offset limit_arg timeout_arg db).
  split.
  - rewrite update_ids. apply sorted_strict; [apply polled_sorted|by apply polled_NoDup].
  - destruct ms as [|m0 ms0] eqn:E.
    { simpl. by destruct offset as [[]|]. }
    rewrite <-E. assert (map to_dict ms ≠ []) as Hne by (by rewrite E).
    destruct (map to_dict ms) as [|u0 us0] eqn:Eu; [done|]. rewrite <-Eu. clear Hne.
    destruct (foldl_max_ge (map Message.id ms) (or_zero offset)) as [Hge Hmax].
    split.
    + intros u (m & Hm & ->)%elem_of_updates.
      specialize (Hmax _ (list_elem_of_fmap_2 _ _ _ Hm)). lia.
    + destruct (foldl_max_attained (map Message.id ms) (or_zero offset)) as [Heq|Hin].
      * (* the largest is the starting value: it is below every returned row *)
        exfalso. assert (m0 ∈ ms) as Hm0 by (rewrite E; by left).
        specialize (Hmax _ (list_elem_of_fmap_2 _ _ _ Hm0)).
        destruct (polled_elem_of user offset limit_arg timeout_arg db m0 Hm0)
          as (Hdb & _ & Hoff).
        unfold ids_positive in Hpos. rewrite Forall_forall in Hpos.
        specialize (Hpos _ Hdb). simpl in Hpos.
        destruct offset as [N|].
        -- specialize (Hoff N eq_refl).
           assert (or_zero (Some N) = N) as HN by (by destruct N).
           lia.
        -- change (or_zero None) with 0 in *. lia.
      * apply list_elem_of_fmap in Hin as (m & Hid & Hm). exists (to_dict m).
        split; [by apply list_elem_of_fmap_2|]. simpl. lia.
Qed.

(** C10: on a store whose sequence numbers are positive, a poll with offset
    0 and a poll without offset give the same answer (the same messages and
    the same [next_offset]) and leave the same state. *)
Theorem get_updates_offset_zero user limit_arg timeout_arg db
    (Hpos : ids_positive (messages db)) :
  get_updates user (Some 0) limit_arg timeout_arg db =
  get_updates user None limit_arg timeout_arg db.
Proof.
  rewrite !get_updates_eq.
  assert (polled user (Some 0) limit_arg timeout_arg db =
          polled user None limit_arg timeout_arg db) as ->; [|done].
  unfold polled, updates_query. do 2 f_equal.
  apply List.filter_ext_in. intros m Hm%list_elem_of_In.
  unfold ids_positive in Hpos. rewrite Forall_forall in Hpos.
  specialize (Hpos m Hm). simpl in Hpos.
  rewrite (bool_decide_eq_true_2 (Message.id m > 0)) by lia. done.
Qed.

(** ** The webhook notifier *)

Lemma first_map {A} (p : A → bool) (g : A → A) (rows : list A) :
  (∀ x, p (g x) = p x) → first p (map g rows) = g <$> first p rows.
Proof.
  intros Hp. unfold first. induction rows as [|x rows IH]; [done|]. simpl.
  rewrite Hp. destruct (p x); [done|apply IH].
Qed.

(** C8 (as the code has it): without an active registration of the receiver
    the notifier changes nothing and answers [False]; so it does when the
    outbound call raises.  Whenever the call returns a response, whatever
    its status, the registration's [last_triggered] is set to the time of
    the call and the message of that [message_id], if still stored, has
    [webhook_sent] set; users and files are untouched, and the answer is
    [True] exactly for status 200. *)
Theorem webhook_marking user_id message_data post now db :
  let r := send_webhook_notification user_id message_data post now db in
  let named m := bool_decide (Message.message_id m = md_message_id message_data) in
  match active_webhook user_id db, post with
  | None, _ => r = (false, db)
  | Some _, Raised => r = (false, db)
  | Some _, Responded status_code =>
      r.1 = bool_decide (status_code = 200) ∧
      UserWebhook.last_triggered <$> active_webhook user_id r.2 = Some (Some now) ∧
      Message.webhook_sent <$> first named (messages r.2)
        = (λ _, true) <$> first named (messages db) ∧
      users r.2 = users db ∧ disk r.2 = disk db
  end.
Proof.
  intros r named. subst r. unfold send_webhook_notification.
  destruct (active_webhook user_id db) as [webhook|] eqn:Ew; [|done].
  destruct post as [status_code|]; [|done].
  cbn [messages update_webhook set_webhooks].
  fold named.
  assert (active_webhook user_id
            (update_webhook (UserWebhook.id webhook)
               (UserWebhook.with_last_triggered (Some now)) db)
          = Some (UserWebhook.with_last_triggered (Some now) webhook)) as Hw.
  { unfold active_webhook in *. cbn [webhooks update_webhook set_webhooks].
    rewrite first_map.
    - rewrite Ew. simpl. by rewrite decide_True.
    - intros w. by case_decide. }
  destruct (first named (messages db)) as [message|] eqn:Em.
  - cbn [fst snd]. split_and!; try done.
    + unfold update_message at 1. unfold active_webhook in *.
      cbn [webhooks set_messages update_webhook set_webhooks] in *.
      by rewrite Hw.
    + cbn [messages update_message set_messages update_webhook set_webhooks].
      rewrite first_map.
      * rewrite Em. simpl. by rewrite decide_True.
      * intros m. by case_decide.
  - cbn [fst snd]. split_and!; try done.
    + by rewrite Hw.
    + cbn [messages update_webhook set_webhooks]. by rewrite Em.
Qed.

(** ** How the message table changes *)

Lemma transition_refl R ms : transition R ms ms.
Proof. by left. Qed.

Lemma next_id_above (ids : list Z) : 0 < next_id ids ∧ ∀ i, i ∈ ids → i < next_id ids.
Proof.
  unfold next_id. induction ids as [|x ids [IH1 IH2]]; simpl.
  - split; [lia|]. intros i Hi. by apply elem_of_nil in Hi.
  - split; [lia|]. intros i [->|Hi]%elem_of_cons; [lia|].
    specialize (IH2 i Hi). lia.
Qed.

Lemma ids_inj ms m m' :
  NoDup (map Message.id ms) → m ∈ ms → m' ∈ ms →
  Message.id m' = Message.id m → m' = m.
Proof.
  induction ms as [|x ms IH]; simpl; intros Hnd Hm Hm' Hid.
  - by apply elem_of_nil in Hm.
  - apply NoDup_cons in Hnd as [Hx Hnd].
    apply elem_of_cons in Hm as [->|Hm]; apply elem_of_cons in Hm' as [->|Hm'].
    + done.
    + exfalso. apply Hx. rewrite <-Hid. by apply list_elem_of_fmap_2.
    + exfalso. apply Hx. rewrite Hid. by apply list_elem_of_fmap_2.
    + by apply IH.
Qed.

Lemma map_ids_preserved (h : Message.t → Message.t) ms :
  (∀ m, m ∈ ms → Message.id (h m) = Message.id m) →
  map Message.id (map h ms) = map Message.id ms.
Proof.
  induction ms as [|x ms IH]; intros H; [done|]. simpl. f_equal.
  - apply H. by left.
  - apply IH. intros m Hm. apply H. by right.
Qed.

Lemma transition_wf R ms ms' : transition R ms ms' → ids_wf ms → ids_wf ms'.
Proof.
  intros [Hsub|[(new & -> & Hnew)|(h & -> & Hh)]] [Hnd Hpos].
  - split.
    + eapply sublist_NoDup; [done|]. by apply fmap_sublist.
    + unfold ids_positive in *. rewrite Forall_forall in *.
      intros m Hm. apply Hpos. by eapply sublist_subseteq.
  - destruct (next_id_above (map Message.id ms)) as [H0 Hlt]. split.
    + change (NoDup (Message.id <$> ms ++ [new])). rewrite fmap_app.
      apply NoDup_app. split_and!; [done| |apply NoDup_singleton].
      intros i Hi ->%list_elem_of_singleton. specialize (Hlt _ Hi). lia.
    + apply Forall_app. split; [done|]. apply Forall_singleton. lia.
  - split.
    + rewrite map_ids_preserved; [done|]. intros m Hm. by apply Hh.
    + unfold ids_positive in *. rewrite Forall_forall in *.
      intros m' (m & -> & Hm)%list_elem_of_fmap.
      destruct (Hh m Hm) as [-> _]. by apply Hpos.
Qed.

Lemma transition_frame R ms ms' m m' :
  transition R ms ms' → ids_wf ms → m ∈ ms → m' ∈ ms' →
  Message.id m' = Message.id m → m' = m ∨ R m m'.
Proof.
  intros [Hsub|[(new & -> & Hnew)|(h & -> & Hh)]] [Hnd Hpos] Hm Hm' Hid.
  - left. apply (ids_inj ms); try done. by eapply sublist_subseteq.
  - left. apply elem_of_app in Hm' as [Hm'|Hm'%list_elem_of_singleton].
    + by apply (ids_inj ms).
    + subst m'. destruct (next_id_above (map Message.id ms)) as [_ Hlt].
      specialize (Hlt _ (list_elem_of_fmap_2 Message.id _ _ Hm)). lia.
  - apply list_elem_of_fmap in Hm' as (m0 & -> & Hm0).
    destruct (Hh m0 Hm0) as [Hid0 Hr].
    assert (m0 = m) as -> by (apply (ids_inj ms); [done..|congruence]).
    done.
Qed.

(** The retention engine only deletes rows. *)
Lemma delete_message_sublist pk db :
  messages (delete_message pk db) `sublist_of` messages db.
Proof. apply filter_bool_sublist. Qed.

Lemma cleanup_message_sublist db m :
  messages (cleanup_message db m) `sublist_of` messages db.
Proof.
  unfold cleanup_message. etrans; [apply delete_message_sublist|].
  destruct (path_exists _ db), (truthy_int _); try done;
    by destruct (sender_of _ _).
Qed.

Lemma cleanup_old_messages_sublist now db :
  messages (cleanup_old_messages now db) `sublist_of` messages db.
Proof.
  unfold cleanup_old_messages. generalize (List.filter
    (λ m, bool_decide (Message.sent_at m < now - hours MESSAGE_AUTO_DELETE_HOURS))
    (messages db)). intros old. revert db.
  induction old as [|m old IH]; intros db; simpl; [done|].
  etrans; [apply IH|apply cleanup_message_sublist].
Qed.

Lemma global_loop_sublist total files deleted db :
  messages (global_loop total files deleted db) `sublist_of` messages db.
Proof.
  revert deleted db. induction files as [|m files IH]; intros deleted db; simpl; [done|].
  case_decide; [done|].
  destruct (path_exists _ db); (etrans; [apply IH|]);
    (etrans; [apply delete_message_sublist|]); by destruct (sender_of _ _).
Qed.

Lemma user_loop_sublist pk files deleted db :
  messages (user_loop pk files deleted db) `sublist_of` messages db.
Proof.
  revert deleted db. induction files as [|m files IH]; intros deleted db; simpl; [done|].
  destruct (get_user pk db); [|done]. case_decide; [done|].
  destruct (path_exists _ db); (etrans; [apply IH|]);
    (etrans; [apply delete_message_sublist|]); done.
Qed.

Lemma enforce_user_sublist db pk :
  messages (enforce_user db pk) `sublist_of` messages db.
Proof.
  unfold enforce_user. destruct (get_user pk db); [|done].
  case_decide; [apply user_loop_sublist|done].
Qed.

Lemma enforce_storage_limits_sublist db :
  messages (enforce_storage_limits db) `sublist_of` messages db.
Proof.
  unfold enforce_storage_limits.
  set (db1 := if decide (get_total_storage_used db > MAX_TOTAL_STORAGE) then _ else db).
  assert (messages db1 `sublist_of` messages db) as H1.
  { subst db1. case_decide; [apply global_loop_sublist|done]. }
  etrans; [|apply H1]. generalize (map User.id (users db1)). intros pks.
  generalize db1. clear. induction pks as [|pk pks IH]; intros db; simpl; [done|].
  etrans; [apply IH|apply enforce_user_sublist].
Qed.

Lemma background_cycle_sublist now db :
  messages (background_cycle now db) `sublist_of` messages db.
Proof.
  unfold background_cycle.
  etrans; [apply enforce_storage_limits_sublist|apply cleanup_old_messages_sublist].
Qed.

Lemma messages_mark_delivered xs db :
  NoDup (map Message.id xs) →
  messages (foldl mark_delivered db xs) =
  map (λ m, if touched xs m then delivered_once m else m) (messages db).
Proof.
  revert db. induction xs as [|x xs IH]; intros db; simpl.
  - intros _. by rewrite map_id.
  - intros [Hx Hnd]%NoDup_cons. rewrite IH by done.
    unfold mark_delivered. destruct (Message.is_delivered x) eqn:Ed; simpl.
    + apply map_ext. intros m. by rewrite andb_false_r.
    + rewrite map_map. apply map_ext. intros m. rewrite andb_true_r.
      fold (delivered_once m).
      case_decide as Hid; [|by rewrite bool_decide_eq_false_2 by done].
      rewrite bool_decide_eq_true_2 by done. simpl.
      assert (touched xs (delivered_once m) = false) as ->; [|done].
      unfold touched. apply not_true_iff_false. rewrite existsb_exists.
      intros (y & Hy & Hb). apply andb_true_iff in Hb as [Hb _].
      apply bool_decide_eq_true in Hb. simpl in Hb. apply Hx.
      rewrite <-Hid, <-Hb. apply list_elem_of_fmap_2. by apply list_elem_of_In.
Qed.

Lemma get_updates_transition user offset limit_arg timeout_arg db :
  ids_wf (messages db) →
  transition (allowed_change (GetUpdates None offset limit_arg timeout_arg))
    (messages db) (messages (get_updates user offset limit_arg timeout_arg db).2).
Proof.
  intros [Hnd Hpos]. rewrite get_updates_eq. simpl.
  rewrite messages_mark_delivered by (by apply polled_NoDup).
  right. right. eexists. split; [reflexivity|].
  intros m Hm. simpl. destruct (touched _ m) eqn:Et; [|by split; [|left]].
  split; [done|]. right. split; [|done].
  unfold touched in Et. apply existsb_exists in Et as (x & Hx%list_elem_of_In & Hb).
  apply andb_true_iff in Hb as [Hid Hd]. apply bool_decide_eq_true in Hid.
  destruct (polled_elem_of user offset limit_arg timeout_arg db x Hx) as (Hx' & _).
  assert (x = m) as <- by (by apply (ids_inj (messages db))).
  by destruct (Message.is_delivered x).
Qed.

Lemma update_message_transition (R : relation Message.t) pk f db :
  (∀ m, Message.id (f m) = Message.id m ∧ R m (f m)) →
  transition R (messages db) (messages (update_message pk f db)).
Proof.
  intros Hf. right. right. eexists. split; [reflexivity|].
  intros m _. simpl. case_decide; [|by split; [|left]].
  destruct (Hf m). by split; [|right].
Qed.

Lemma download_file_transition key user file_id reentered_at db :
  ids_wf (messages db) →
  transition (allowed_change (DownloadFile key file_id reentered_at))
    (messages db) (messages (download_file user file_id reentered_at db).2).
Proof.
  intros [Hnd _]. unfold download_file.
  destruct (first _ (messages db)) as [message|] eqn:Ef; [|apply transition_refl].
  apply first_Some in Ef as [Hfile%bool_decide_eq_true Hin].
  destruct (_ && _); [apply transition_refl|].
  destruct (negb _); [apply transition_refl|].
  right. right. eexists. split; [reflexivity|].
  intros m Hm. simpl. case_decide as Hid; [|by split; [|left]].
  split; [done|]. right. split; [|done].
  by assert (m = message) as -> by (by apply (ids_inj (messages db) message m)).
Qed.

Lemma send_webhook_notification_transition user_id message_data post now db :
  transition (allowed_change (WebhookThread user_id message_data post))
    (messages db)
    (messages (send_webhook_notification user_id message_data post now db).2).
Proof.
  unfold send_webhook_notification.
  destruct (active_webhook user_id db) as [webhook|]; [|apply transition_refl].
  destruct post as [status_code|]; [|apply transition_refl].
  cbn [snd]. destruct (first _ _) as [message|]; [|apply transition_refl].
  by apply (update_message_transition _ _ _
              (update_webhook _ _ db)).
Qed.

Lemma send_message_transition R sender data message_id now inserted_at db :
  transition R (messages db)
    (messages (send_message sender data message_id now inserted_at db).2).
Proof.
  unfold send_message.
  repeat (match goal with |- context [if ?b then _ else _] => destruct b end;
          [apply transition_refl|]).
  destruct (reply_link _ db) as [rs rt]. right. left. eexists. split; reflexivity.
Qed.

Lemma send_file_transition R sf sender files form file_id message_id now
    inserted_at db :
  transition R (messages db)
    (messages (send_file sf sender files form file_id message_id now inserted_at db).2).
Proof.
  unfold send_file.
  destruct files as [|[file_|]]; [apply transition_refl| |apply transition_refl].
  repeat (match goal with |- context [if ?b then _ else _] => destruct b end;
          [apply transition_refl|]).
  destruct (reply_link _ db) as [rs rt].
  destruct (_ && _); [|apply transition_refl].
  right. left. eexists. split; reflexivity.
Qed.

Lemma require_api_key_transition {A} R key now
    (f : User.t → DB → response A * DB) db :
  (∀ user db0, messages db0 = messages db →
               transition R (messages db) (messages (f user db0).2)) →
  transition R (messages db) (messages (require_api_key key now f db).2).
Proof.
  intros Hf. unfold require_api_key.
  destruct (negb _); [apply transition_refl|].
  destruct (first _ (users db)) as [user|]; [|apply transition_refl].
  by apply Hf.
Qed.

(** Closes the goals of handlers that leave the message table alone. *)
Ltac unchanged :=
  repeat first
    [ apply transition_refl
    | match goal with
      | |- context [if ?b then _ else _] => destruct b
      | |- context [match ?o with Some _ => _ | None => _ end] => destruct o
      end ].

Lemma handle_transition sf now r db :
  ids_wf (messages db) →
  transition (allowed_change r) (messages db) (messages (handle sf now r db)).
Proof.
  intros Hwf. destruct r; simpl handle.
  - unfold init_db. unchanged.
  - unfold register_user. unchanged.
  - apply require_api_key_transition. intros user db0 <-.
    apply send_message_transition.
  - apply require_api_key_transition. intros user db0 <-.
    apply send_file_transition.
  - apply require_api_key_transition. intros user db0 Heq. rewrite <-Heq in *.
    by apply get_updates_transition.
  - apply require_api_key_transition. intros user db0 <-.
    unfold get_chat_history. unchanged.
  - apply require_api_key_transition. intros user db0 Heq. rewrite <-Heq in *.
    by apply download_file_transition.
  - apply require_api_key_transition. intros user db0 <-.
    unfold set_webhook. unchanged.
  - apply require_api_key_transition. intros user db0 <-. apply transition_refl.
  - apply send_webhook_notification_transition.
  - left. apply background_cycle_sublist.
Qed.

(** In every state the application can reach, the sequence numbers of the
    stored messages are positive and distinct. *)
Lemma reachable_ids_wf sf db : reachable sf db → ids_wf (messages db).
Proof.
  induction 1 as [|now r db Hr IH].
  - split; [constructor|constructor].
  - eapply transition_wf; [by apply handle_transition|done].
Qed.

(** C7 (as the code has it): on a store with distinct sequence numbers, a
    request or task leaves every message that stays stored as it was, but
    for three: a poll sets the delivered flag and adds one to the read
    counter of an undelivered message, the notification thread sets the
    webhook-sent flag, and a request to the download route adds one to the
    read counter of the message that holds the requested file. *)
Theorem message_frame sf now r db m m'
    (Hwf : ids_wf (messages db))
    (Hm : m ∈ messages db)
    (Hm' : m' ∈ messages (handle sf now r db))
    (Hid : Message.id m' = Message.id m) :
  m' = m ∨ allowed_change r m m'.
Proof.
  eapply transition_frame; [by apply handle_transition|done..].
Qed.

(** ** The ledger and the retention engine *)

Lemma messages_cleanup_message db x :
  messages (cleanup_message db x) =
  List.filter (λ m, negb (bool_decide (Message.id m = Message.id x))) (messages db).
Proof.
  unfold cleanup_message, delete_message.
  destruct (path_exists _ db), (truthy_int _); try done;
    by destruct (sender_of _ _).
Qed.

Lemma foldl_cleanup_message_elem_of old db m :
  m ∈ messages (foldl cleanup_message db old) →
  m ∈ messages db ∧ Message.id m ∉ map Message.id old.
Proof.
  revert db. induction old as [|x old IH]; intros db; simpl.
  - intros H. split; [done|]. apply not_elem_of_nil.
  - intros [Hm Hold]%IH. rewrite messages_cleanup_message in Hm.
    apply elem_of_filter_bool in Hm as [Hx Hm]. split; [done|].
    apply not_elem_of_cons. split; [|done].
    apply negb_true_iff, bool_decide_eq_false in Hx. done.
Qed.

(** After an expiry sweep no stored message is older than the retention
    window. *)
Lemma cleanup_old_messages_expired_gone now db m :
  m ∈ messages (cleanup_old_messages now db) →
  ¬ Message.sent_at m < now - hours MESSAGE_AUTO_DELETE_HOURS.
Proof.
  unfold cleanup_old_messages. intros [Hm Hold]%foldl_cleanup_message_elem_of Hexp.
  apply Hold. apply list_elem_of_fmap_2. apply elem_of_filter_bool.
  split; [by apply bool_decide_eq_true|done].
Qed.

(** C1: the ledger's message count is not kept equal to the number of
    stored messages.  Alice registers, sends Bob one text, and a day later
    the background cycle deletes it: she has no stored message left, and her
    [message_count] is still 1. *)
Theorem ledger_count_drift :
  reachable id next_day ∧
  messages next_day = [] ∧
  stored_message_count "alice" next_day = 0 ∧
  stored_file_bytes "alice" next_day = 0 ∧
  ledger "alice" after_text = Some (0, 1) ∧
  ledger "alice" next_day = Some (0, 1).
Proof.
  split.
  - unfold next_day, after_text, two_users.
    repeat apply reachable_handle. apply reachable_empty.
  - by vm_compute.
Qed.

(** The per-user loop on rows written by hand, with a ledger that no
    sequence of requests produces.  Alice is billed 150 MiB for five stored
    files of 30 MiB, all on disk; one cycle deletes only the oldest and
    leaves her at 120 MiB.  (With the same rows and no file on disk the loop
    deletes two and stops at 90 MiB: the bytes of a file that was on disk
    are subtracted twice in the loop's test.) *)
Example user_loop_on_forced_ledger :
  let db := background_cycle 100 (over_cap true) in
  ledger "alice" (over_cap true) = Some (150 * MiB, 5) ∧
  stored_file_bytes "alice" (over_cap true) = 150 * MiB ∧
  ledger "alice" db = Some (120 * MiB, 4) ∧
  map Message.id (messages db) = [2; 3; 4; 5] ∧
  120 * MiB > MAX_USER_STORAGE ∧
  ledger "alice" (background_cycle 100 (over_cap false)) = Some (90 * MiB, 3).
Proof. by vm_compute. Qed.

(** C3: the sweep deletes an expired text without touching its sender's
    message count.  Alice's text and her 5-byte file have both expired; the
    sweep deletes both and takes the file's 5 bytes and one message off her
    ledger, not two. *)
Theorem expiry_sweep_skips_text_count :
  let db := cleanup_old_messages 90000 after_file in
  map Message.message_type (messages after_file) = [text; file] ∧
  ledger "alice" after_file = Some (5, 2) ∧
  messages db = [] ∧
  ledger "alice" db = Some (0, 1).
Proof. by vm_compute. Qed.

Example messages_after_file : messages after_file = [text_message; notes_message].
Proof. by vm_compute. Qed.

Example messages_hooked : messages hooked = [text_message].
Proof. by vm_compute. Qed.

(** C7, counterexample: a request to the download route changes a stored
    message.  Bob asks for the file Alice sent him: the route answers 500,
    and the read counter of the file's message has gone from 0 to 1. *)
Lemma download_changes_read_count :
  (require_api_key (Some "key-bob") 30
     (λ user, download_file user "f1" 30) after_file).1
  = Failure 500 "Download failed: send_file() takes 0 positional arguments but 1 was given" ∧
  ∃ m m',
    m ∈ messages after_file ∧
    m' ∈ messages (handle id 30 (DownloadFile (Some "key-bob") "f1" 30) after_file) ∧
    Message.id m' = Message.id m ∧ m' ≠ m ∧
    Message.read_count m = 0 ∧ Message.read_count m' = 1.
Proof.
  split; [by vm_compute|].
  exists notes_message, (Message.with_read_count 1 notes_message).
  assert (messages (handle id 30 (DownloadFile (Some "key-bob") "f1" 30) after_file)
          = [text_message; Message.with_read_count 1 notes_message]) as ->
    by (by vm_compute).
  rewrite messages_after_file.
  split_and!; try done.
  - apply list_elem_of_further, list_elem_of_here.
  - apply list_elem_of_further, list_elem_of_here.
Qed.

(** The frame at Bob's request for the file Alice sent him. *)
Lemma message_frame_witness :
  Message.with_read_count 1 notes_message = notes_message ∨
  allowed_change (DownloadFile (Some "key-bob") "f1" 30) notes_message
    (Message.with_read_count 1 notes_message).
Proof.
  apply (message_frame id 30 (DownloadFile (Some "key-bob") "f1" 30) after_file).
  - apply (bool_decide_unpack _). vm_compute. exact I.
  - vm_compute. apply list_elem_of_further, list_elem_of_here.
  - vm_compute. apply list_elem_of_further, list_elem_of_here.
  - reflexivity.
Defined.

(** C8, counterexample: marking is not tied to the success of the outbound
    call.  Bob's endpoint answers Alice's text with status 500; the notifier
    answers [False], and yet the message's [webhook_sent] goes from false to
    true and the registration's [last_triggered] is set. *)
Lemma webhook_marked_on_failed_call :
  let r := send_webhook_notification "bob" (to_dict text_message)
             (Responded 500) 40 hooked in
  r.1 = false ∧
  map Message.webhook_sent (messages hooked) = [false] ∧
  map UserWebhook.last_triggered (webhooks hooked) = [None] ∧
  map Message.webhook_sent (messages r.2) = [true] ∧
  map UserWebhook.last_triggered (webhooks r.2) = [Some 40].
Proof. by vm_compute. Qed.

(** The quota check at the boundary: Alice holds 75 MiB and sends 25 MiB. *)
Lemma send_file_quota_boundary_witness :
  let r := (send_file id (alice_row (75 * MiB) 3) (Files (Some (upload (25 * MiB))))
              to_bob "f9" "m9" 50 50 two_users).1 in
  (r = Failure 400 "Storage limit exceeded" ↔
   75 * MiB + 25 * MiB > MAX_USER_STORAGE) ∧
  ((∃ body, r = Success body) ↔ 75 * MiB + 25 * MiB ≤ MAX_USER_STORAGE) ∧
  (75 * MiB + 25 * MiB = MAX_USER_STORAGE → ∃ body, r = Success body).
Proof.
  apply (send_file_quota_boundary id (alice_row (75 * MiB) 3) (upload (25 * MiB))
           to_bob "f9" "m9" 50 50 two_users).
  - vm_compute. discriminate.
  - vm_compute. reflexivity.
  - vm_compute. reflexivity.
  - vm_compute. reflexivity.
Defined.

(** Bob's first poll after Alice's two messages. *)
Lemma get_updates_next_offset_witness :
  ∃ body db',
    get_updates bob_row None None None after_file = (Success body, db') ∧
    StronglySorted Z.lt (map update_id (updates_list body)) ∧
    match updates_list body with
    | [] => next_offset body = default 0 None
    | _ => (∀ u, u ∈ updates_list body → update_id u + 1 ≤ next_offset body) ∧
           (∃ u, u ∈ updates_list body ∧ next_offset body = update_id u + 1)
    end.
Proof.
  apply (get_updates_next_offset bob_row None None None after_file).
  apply (bool_decide_unpack _). vm_compute. exact I.
Defined.

Example bob_first_poll :
  (get_updates bob_row None None None after_file).1 =
  Success {| updates_list := [to_dict text_message; to_dict notes_message];
             next_offset := 3 |}.
Proof. by vm_compute. Qed.

Lemma get_updates_offset_zero_witness :
  get_updates bob_row (Some 0) None None after_file =
  get_updates bob_row None None None after_file.
Proof.
  apply (get_updates_offset_zero bob_row None None after_file).
  apply (bool_decide_unpack _). vm_compute. exact I.
Defined.

(** ** More on polling *)

Lemma limit_length {A} n (rows : list A) :
  n < 0 ∨ (length (limit n rows) ≤ Z.to_nat n)%nat.
Proof.
  unfold limit. case_decide; [by left|right]. rewrite length_take. lia.
Qed.

(** A poll hands out only messages addressed to the caller, each a
    snapshot of a stored row, and no more than the limit (50 when none is
    given) unless the limit is negative. *)
Theorem get_updates_own_messages user offset limit_arg timeout_arg db :
  ∃ body db',
    get_updates user offset limit_arg timeout_arg db = (Success body, db') ∧
    (∀ u, u ∈ updates_list body →
          md_receiver_id u = User.user_id user ∧
          ∃ m, m ∈ messages db ∧ u = to_dict m) ∧
    (default 50 limit_arg < 0 ∨
     (length (updates_list body) ≤ Z.to_nat (default 50%Z limit_arg))%nat).
Proof.
  rewrite get_updates_eq. eexists _, _. split; [reflexivity|]. simpl. split.
  - intros u (m & -> & Hm)%list_elem_of_fmap.
    destruct (polled_elem_of user offset limit_arg timeout_arg db m Hm)
      as (Hdb & Hr & _).
    split; [done|eauto].
  - change (map to_dict ?l) with (to_dict <$> l). rewrite length_fmap.
    apply limit_length.
Qed.

(** A poll hands out the matching messages of lowest sequence number: a
    message for the caller above the offset is in the page, or the page is
    full and holds only sequence numbers up to that message's. *)
Theorem get_updates_lowest_first user offset limit_arg timeout_arg db :
  ∃ body db',
    get_updates user offset limit_arg timeout_arg db = (Success body, db') ∧
    ∀ m, m ∈ messages db →
         Message.receiver_id m = User.user_id user →
         (∀ N, offset = Some N → N < Message.id m) →
         to_dict m ∈ updates_list body ∨
         (length (updates_list body) = Z.to_nat (default 50 limit_arg) ∧
          ∀ u, u ∈ updates_list body → update_id u ≤ Message.id m).
Proof.
  rewrite get_updates_eq. eexists _, _. split; [reflexivity|]. simpl.
  intros m Hm Hr Hoff. unfold polled, updates_query.
  set (rows := order_by Message.id _).
  assert (m ∈ rows) as Hrows.
  { apply elem_of_order_by, elem_of_filter_bool. split; [|done].
    rewrite bool_decide_eq_true_2 by done. simpl.
    destruct offset as [N|]; [|done]. apply bool_decide_eq_true.
    specialize (Hoff N eq_refl). lia. }
  assert (StronglySorted (key_le Message.id) rows) as Hs by apply order_by_sorted.
  unfold limit. change POLLING_LIMIT with 50. case_decide as Hn.
  { left. by apply list_elem_of_fmap_2. }
  set (k := Z.to_nat (default 50 limit_arg)) in *.
  rewrite <-(take_drop k rows) in Hrows, Hs.
  apply elem_of_app in Hrows as [Hin|Hout].
  { left. by apply list_elem_of_fmap_2. }
  right. split.
  - change (map to_dict ?l) with (to_dict <$> l). rewrite length_fmap.
    apply length_take_le.
    destruct (decide (k ≤ length rows)%nat); [done|].
    rewrite drop_ge in Hout by lia. by apply elem_of_nil in Hout.
  - intros u (x & -> & Hx)%list_elem_of_fmap. simpl.
    apply (StronglySorted_app_1_elem_of _ _ _ x m Hs Hx Hout).
Qed.

Lemma touched_true xs m :
  touched xs m = true ↔
  ∃ x, x ∈ xs ∧ Message.id x = Message.id m ∧ Message.is_delivered x = false.
Proof.
  unfold touched. rewrite existsb_exists. split.
  - intros (x & Hx%list_elem_of_In & [Hid Hd]%andb_true_iff).
    apply bool_decide_eq_true in Hid. apply negb_true_iff in Hd. eauto.
  - intros (x & Hx%list_elem_of_In & Hid & Hd). exists x. split; [done|].
    rewrite Hd. by rewrite bool_decide_eq_true_2.
Qed.

(** On a store with distinct sequence numbers, a poll hands out every
    message as it was stored before the poll, and what is stored afterwards
    is the table of before with every handed-out message that was not yet
    delivered marked delivered and its read counter one higher, and every
    other row as it was: a handed-out message that was already delivered
    keeps its counter. *)
Theorem get_updates_marks_delivered user offset limit_arg timeout_arg db
    (Hwf : ids_wf (messages db)) :
  ∃ body db',
    get_updates user offset limit_arg timeout_arg db = (Success body, db') ∧
    (∀ u, u ∈ updates_list body →
       ∃ m, m ∈ messages db ∧ u = to_dict m ∧
            (if Message.is_delivered m then m else delivered_once m) ∈ messages db') ∧
    messages db' =
      map (λ m, if bool_decide (Message.id m ∈ map update_id (updates_list body))
                   && negb (Message.is_delivered m)
                then delivered_once m else m) (messages db).
Proof.
  destruct Hwf as [Hnd Hpos].
  rewrite get_updates_eq. eexists _, _. split; [reflexivity|].
  cbn [updates_list]. rewrite update_ids.
  set (xs := polled user offset limit_arg timeout_arg db).
  assert (messages (foldl mark_delivered db xs) =
          map (λ m, if bool_decide (Message.id m ∈ map Message.id xs)
                       && negb (Message.is_delivered m)
                    then delivered_once m else m) (messages db)) as Hafter.
  { rewrite messages_mark_delivered by (by apply polled_NoDup). fold xs.
    apply List.map_ext_in. intros m Hm%list_elem_of_In.
    destruct (touched xs m) eqn:Et.
    - apply touched_true in Et as (x & Hx & Hid & Hd).
      destruct (polled_elem_of user offset limit_arg timeout_arg db x Hx) as (Hxdb & _).
      assert (x = m) as -> by (by apply (ids_inj (messages db))).
      rewrite Hd, bool_decide_eq_true_2; [done|]. by apply list_elem_of_fmap_2.
    - destruct (bool_decide _ && negb _) eqn:Eb; [|done].
      apply andb_true_iff in Eb as [Hin%bool_decide_eq_true Hd%negb_true_iff].
      apply list_elem_of_fmap in Hin as (x & Hid & Hx).
      destruct (polled_elem_of user offset limit_arg timeout_arg db x Hx) as (Hxdb & _).
      assert (x = m) as -> by (by apply (ids_inj (messages db))).
      assert (touched xs m = true) as Ht by (apply touched_true; eauto).
      congruence. }
  split; [|exact Hafter].
  intros u (m & -> & Hm)%list_elem_of_fmap.
  destruct (polled_elem_of user offset limit_arg timeout_arg db m Hm) as (Hdb & _).
  exists m. split_and!; [done..|]. rewrite Hafter.
  apply (list_elem_of_fmap_2'
           (λ m, if bool_decide (Message.id m ∈ map Message.id xs)
                    && negb (Message.is_delivered m)
                 then delivered_once m else m) _ m); [done|].
  rewrite bool_decide_eq_true_2 by (by apply list_elem_of_fmap_2).
  by destruct (Message.is_delivered m).
Qed.

Lemma or_zero_Some N : or_zero (Some N) = N.
Proof. by destruct N. Qed.

Lemma next_id_le (ids : list Z) M :
  0 ≤ M → (∀ i, i ∈ ids → i ≤ M) → next_id ids ≤ M + 1.
Proof.
  intros HM. unfold next_id. induction ids as [|x ids IH]; simpl; intros H; [lia|].
  assert (x ≤ M) by (apply H; by left).
  assert (1 + foldr Z.max 0 ids ≤ M + 1) by (apply IH; intros i Hi; apply H; by right).
  lia.
Qed.

(** The largest sequence number of a non-empty page is that of one of its
    messages, not the offset the loop starts from. *)
Lemma polled_max user offset limit_arg timeout_arg db :
  ids_positive (messages db) →
  polled user offset limit_arg timeout_arg db ≠ [] →
  ∃ x, x ∈ polled user offset limit_arg timeout_arg db ∧
       foldl Z.max (or_zero offset)
         (map Message.id (polled user offset limit_arg timeout_arg db)) = Message.id x.
Proof.
  intros Hpos Hne. set (ms := polled user offset limit_arg timeout_arg db) in *.
  destruct (foldl_max_attained (map Message.id ms) (or_zero offset)) as [Heq|Hin].
  - destruct ms as [|m0 ms0] eqn:E; [done|]. rewrite <-E in *.
    assert (m0 ∈ ms) as Hm0 by (rewrite E; by left).
    destruct (polled_elem_of user offset limit_arg timeout_arg db m0 Hm0)
      as (Hdb & _ & Hoff).
    pose proof (proj2 (foldl_max_ge (map Message.id ms) (or_zero offset))
                  _ (list_elem_of_fmap_2 Message.id _ _ Hm0)) as Hge.
    unfold ids_positive in Hpos. rewrite Forall_forall in Hpos.
    specialize (Hpos _ Hdb). simpl in Hpos. exfalso.
    destruct offset as [N|].
    + specialize (Hoff N eq_refl). rewrite or_zero_Some in *. lia.
    + change (or_zero None) with 0 in *. lia.
  - apply list_elem_of_fmap in Hin as (x & Hid & Hx). eauto.
Qed.

Lemma filter_bool_nil {A} (p : A → bool) (l : list A) :
  (∀ x, x ∈ l → p x = false) → List.filter p l = [].
Proof.
  induction l as [|x l IH]; intros H; [done|]. simpl.
  rewrite (H x) by (by left). apply IH. intros y Hy. apply H. by right.
Qed.

Lemma polled_nil user N limit_arg timeout_arg db :
  (∀ m, m ∈ messages db → Message.id m ≤ N) →
  polled user (Some N) limit_arg timeout_arg db = [].
Proof.
  intros H. unfold polled, updates_query. rewrite filter_bool_nil.
  - change (order_by Message.id []) with (@nil Message.t).
    unfold limit. case_decide; [done|]. by rewrite take_nil.
  - intros m Hm. specialize (H m Hm).
    rewrite (bool_decide_eq_false_2 (Message.id m > N)) by lia.
    apply andb_false_r.
Qed.

Lemma messages_poll_ids user offset limit_arg timeout_arg db :
  NoDup (map Message.id (messages db)) →
  map Message.id (messages (get_updates user offset limit_arg timeout_arg db).2)
  = map Message.id (messages db).
Proof.
  intros Hnd. rewrite get_updates_eq. simpl.
  rewrite messages_mark_delivered by (by apply polled_NoDup).
  apply map_ids_preserved. intros m _. by destruct (touched _ m).
Qed.

(** The cursor skips a message.  On a store with positive, distinct
    sequence numbers, let a poll hand out a page that reaches the newest
    stored message.  The message sent next gets the poll's [next_offset] as
    its sequence number, and a poll resumed from that [next_offset] hands out
    nothing and keeps the same [next_offset], whoever the message is for. *)
Theorem resumed_poll_skips_next_message
    user offset limit_arg timeout_arg db body sender data message_id now
    inserted_at
    (Hwf : ids_wf (messages db))
    (Hpoll : (get_updates user offset limit_arg timeout_arg db).1 = Success body)
    (Hpage : updates_list body ≠ [])
    (Hnewest : ∀ m, m ∈ messages db → Message.id m < next_offset body) :
  let db1 := (get_updates user offset limit_arg timeout_arg db).2 in
  let db2 := (send_message sender data message_id now inserted_at db1).2 in
  match (send_message sender data message_id now inserted_at db1).1 with
  | Failure _ _ => True
  | Success s =>
      sent_update_id s = next_offset body ∧
      (∃ m, m ∈ messages db2 ∧ Message.id m = next_offset body ∧
            Message.message_id m = message_id ∧
            Some (Message.receiver_id m) = default ∅ data !! "receiver_id") ∧
      ∀ limit2 timeout2,
        (get_updates user (Some (next_offset body)) limit2 timeout2 db2).1 =
        Success {| updates_list := []; next_offset := next_offset body |}
  end.
Proof.
  destruct Hwf as [Hnd Hpos]. intros db1 db2.
  pose proof (messages_poll_ids user offset limit_arg timeout_arg db Hnd) as Hids.
  fold db1 in Hids.
  rewrite get_updates_eq in Hpoll. simpl in Hpoll. injection Hpoll as <-.
  simpl in Hpage, Hnewest.
  set (ms := polled user offset limit_arg timeout_arg db) in *.
  assert (ms ≠ []) as Hne by (by intros E; rewrite E in Hpage).
  destruct (polled_max user offset limit_arg timeout_arg db Hpos Hne) as (x & Hx & HM).
  fold ms in Hx, HM.
  set (next := match ms with
               | [] => or_zero offset
               | _ => foldl Z.max (or_zero offset) (map Message.id ms) + 1
               end) in *.
  assert (next = Message.id x + 1) as Hnext.
  { subst next. destruct ms; [done|]. by rewrite HM. }
  destruct (polled_elem_of user offset limit_arg timeout_arg db x Hx) as (Hxdb & _).
  assert (next_id (map Message.id (messages db1)) = next) as Hfresh.
  { rewrite Hids, Hnext.
    pose proof (proj2 (next_id_above (map Message.id (messages db)))
                  _ (list_elem_of_fmap_2 Message.id _ _ Hxdb)).
    assert (next_id (map Message.id (messages db)) ≤ Message.id x + 1); [|lia].
    unfold ids_positive in Hpos. rewrite Forall_forall in Hpos.
    specialize (Hpos _ Hxdb). simpl in Hpos.
    apply next_id_le; [lia|].
    intros i (m & -> & Hm)%list_elem_of_fmap. specialize (Hnewest m Hm). lia. }
  assert (∀ m, m ∈ messages db1 → Message.id m < next) as Hold.
  { intros m Hm. apply (list_elem_of_fmap_2 Message.id) in Hm.
    change (Message.id m ∈ map Message.id (messages db1)) in Hm.
    rewrite Hids in Hm. apply list_elem_of_fmap in Hm as (m0 & -> & Hm0).
    by apply Hnewest. }
  subst db2. unfold send_message.
  destruct (no_data data); [done|].
  destruct (truthy_str (default ∅ data !! "receiver_id")) eqn:Er; cbn [negb]; [|done].
  repeat (match goal with |- context [if ?b then _ else _] => destruct b end;
          [done|]).
  destruct (reply_link _ db1) as [rs rt]. cbn [fst snd sent_update_id Message.id].
  split; [done|]. split.
  - eexists. split; [apply elem_of_app; right; apply list_elem_of_here|].
    simpl. split_and!; [done|done|].
    by destruct (default ∅ data !! "receiver_id") as [rid|].
  - intros limit2 timeout2. rewrite get_updates_eq.
    rewrite polled_nil; [by rewrite or_zero_Some|].
    cbn [messages update_user set_users set_messages].
    intros m [Hm|Hm%list_elem_of_singleton]%elem_of_app.
    + specialize (Hold m Hm). simpl. lia.
    + subst m. simpl. lia.
Qed.

(** ** What a send does *)

Lemma receiver_exists_Some receiver_id db :
  receiver_exists receiver_id db = true →
  ∃ r, r ∈ users db ∧ Some (User.user_id r) = receiver_id ∧ User.is_active r = true.
Proof.
  unfold receiver_exists. intros [r Hr]%bool_decide_eq_true.
  apply first_Some in Hr as [[Hid Ha]%andb_true_iff Hin].
  apply bool_decide_eq_true in Hid. eauto.
Qed.

Lemma next_id_fresh (ids : list Z) : next_id ids ∉ ids.
Proof.
  intros Hin. pose proof (proj2 (next_id_above ids) _ Hin). lia.
Qed.

(** [send_file] either refuses and leaves the database and the disk as they
    were, or stores one new message: under a sequence number no stored
    message has, of type file, billed to the sender, addressed to an active
    user, with the upload's size (at most 30 MiB, within the sender's
    quota), an allowed name, its file on disk, sent at the time of the
    insert and expiring 24 h after the handler's clock read.  A request
    over [MAX_CONTENT_LENGTH] is refused with status 500, any other refused
    request with 400 or 404. *)
Theorem send_file_effect sf sender files form file_id message_id now inserted_at db :
  match send_file sf sender files form file_id message_id now inserted_at db with
  | (Failure status _, db') =>
      db' = db ∧
      match files with
      | TooLarge => status = 500
      | Files _ => status = 400 ∨ status = 404
      end
  | (Success s, db') =>
      ∃ file_ m,
        files = Files (Some file_) ∧
        messages db' = messages db ++ [m] ∧
        sent_update_id s = Message.id m ∧
        (Message.id m ∉ map Message.id (messages db)) ∧
        Message.message_type m = file ∧
        Message.file_id m = Some file_id ∧
        Message.file_size m = Some (content_length file_) ∧
        content_length file_ ≤ 30 * 1024 * 1024 ∧
        User.storage_used sender + content_length file_ ≤ MAX_USER_STORAGE ∧
        allowed_file (filename file_) = true ∧
        Message.sender_id m = User.user_id sender ∧
        (∃ r, r ∈ users db ∧ User.user_id r = Message.receiver_id m ∧
              User.is_active r = true) ∧
        path_exists (Message.file_path m) db' = true ∧
        Message.sent_at m = inserted_at ∧
        Message.expires_at m = now + 86400 ∧
        Message.is_delivered m = false ∧ Message.read_count m = 0 ∧
        webhooks db' = webhooks db
  end.
Proof.
  unfold send_file. destruct files as [|[file_|]]; [by auto| |by auto].
  case_bool_decide as Hname; [by auto|].
  destruct (truthy_str (form !! "receiver_id")) eqn:Hr; cbn [negb]; [|by auto].
  case_decide as Hsize; [by auto|]. case_decide as Hquota; [by auto|].
  destruct (receiver_exists _ db) eqn:He; cbn [negb]; [|by auto].
  destruct (reply_link _ db) as [rs rt].
  pose proof (truthy_filename _ Hname) as Ht. rewrite Ht. cbn [andb].
  destruct (allowed_file (filename file_)) eqn:Ha; [|by auto].
  apply receiver_exists_Some in He as (r & Hin & Hid & Hact).
  eexists file_, _. split; [done|]. split; [reflexivity|].
  cbn [Message.id Message.message_type Message.file_id Message.file_size
       Message.sender_id Message.receiver_id Message.file_path Message.expires_at
       Message.sent_at Message.is_delivered Message.read_count sent_update_id].
  split_and!; try done; try lia.
  - apply next_id_fresh.
  - exists r. split_and!; [done| |done]. destruct (form !! "receiver_id"); by simplify_eq.
  - unfold path_exists. cbn [truthy_str]. simpl.
    apply bool_decide_eq_true. set_solver.
Qed.

(** Through the route the handler's own size check never fires: a request
    is at least as long as the file it carries, and one that carries a file
    over 30 MiB is over [MAX_CONTENT_LENGTH] and answered 500. *)
Lemma send_file_size_check_unreached sf sender request_length file_ form
    file_id message_id now inserted_at db :
  content_length file_ ≤ request_length →
  let r := send_file sf sender (parse_files request_length (Some file_)) form
             file_id message_id now inserted_at db in
  r.1 ≠ Failure 400 "File size exceeds 30MB limit" ∧
  (content_length file_ > 30 * 1024 * 1024 → ∃ error, r = (Failure 500 error, db)).
Proof.
  intros Hcarried r. subst r. unfold parse_files, MAX_CONTENT_LENGTH.
  case_decide as Hlong.
  - split; [done|]. intros _. by eexists.
  - split; [|lia]. unfold send_file.
    case_bool_decide; [done|]. destruct (negb _); [done|].
    rewrite decide_False by lia. case_decide; [done|].
    destruct (negb _); [done|]. destruct (reply_link _ db).
    by destruct (_ && _).
Qed.

Lemma send_file_size_check_unreached_witness :
  let r := send_file id (alice_row 0 1)
             (parse_files (31 * MiB + 1024) (Some (upload (31 * MiB))))
             to_bob "f9" "m9" 50 50 after_text in
  r.1 ≠ Failure 400 "File size exceeds 30MB limit" ∧
  (content_length (upload (31 * MiB)) > 30 * 1024 * 1024 →
   ∃ error, r = (Failure 500 error, after_text)).
Proof.
  apply (send_file_size_check_unreached id (alice_row 0 1) (31 * MiB + 1024)
           (upload (31 * MiB)) to_bob "f9" "m9" 50 50 after_text).
  vm_compute. discriminate.
Defined.

(** A request of 31 MiB is answered 500, whatever it carries. *)
Example oversized_upload :
  (send_file id (alice_row 0 1) (parse_files (31 * MiB) (Some (upload (30 * MiB))))
     to_bob "f9" "m9" 50 50 after_text).1
  = Failure 500 "Failed to send file: 413 Request Entity Too Large: The data value transmitted exceeds the capacity limit.".
Proof. reflexivity. Qed.

(** [send_message] either refuses and leaves the database as it was, or
    stores one new message without a file: under a sequence number no stored
    message has, of type text or reply, with a non-empty text, from the
    sender to an active user, undelivered, sent at the time of the insert
    and expiring 24 h after the handler's clock read. *)
Theorem send_message_effect sender data message_id now inserted_at db :
  match send_message sender data message_id now inserted_at db with
  | (Failure status _, db') => db' = db ∧ (status = 400 ∨ status = 404)
  | (Success s, db') =>
      ∃ m,
        messages db' = messages db ++ [m] ∧
        sent_update_id s = Message.id m ∧
        (Message.id m ∉ map Message.id (messages db)) ∧
        Message.message_type m ≠ file ∧
        Message.file_size m = None ∧ Message.file_path m = None ∧
        truthy_str (Message.text_content m) = true ∧
        Message.sender_id m = User.user_id sender ∧
        (∃ r, r ∈ users db ∧ User.user_id r = Message.receiver_id m ∧
              User.is_active r = true) ∧
        Message.sent_at m = inserted_at ∧
        Message.expires_at m = now + 86400 ∧
        Message.is_delivered m = false ∧ Message.read_count m = 0 ∧
        webhooks db' = webhooks db ∧ disk db' = disk db
  end.
Proof.
  unfold send_message. destruct (no_data data); [by auto|].
  destruct (truthy_str (default ∅ data !! "receiver_id")) eqn:Hr; cbn [negb]; [|by auto].
  destruct (truthy_str (default ∅ data !! "text")) eqn:Ht; cbn [negb]; [|by auto].
  destruct (receiver_exists _ db) eqn:He; cbn [negb]; [|by auto].
  destruct (reply_link _ db) as [rs rt].
  apply receiver_exists_Some in He as (r & Hin & Hid & Hact).
  eexists. split; [reflexivity|].
  cbn [Message.id Message.message_type Message.file_size Message.text_content
       Message.sender_id Message.receiver_id Message.file_path Message.expires_at
       Message.sent_at Message.is_delivered Message.read_count sent_update_id].
  split_and!; try done; try lia.
  - apply next_id_fresh.
  - by destruct (truthy_str (default ∅ data !! "reply_to_message_id")).
  - exists r. split_and!; [done| |done].
    destruct (default ∅ data !! "receiver_id"); by simplify_eq.
Qed.

(** ** Downloads, webhooks and authentication *)


Lemma filter_bool_app {A} (p : A → bool) (l1 l2 : list A) :
  List.filter p (l1 ++ l2) = List.filter p l1 ++ List.filter p l2.
Proof. apply List.filter_app. Qed.

Lemma filter_bool_filter_neg {A} (p : A → bool) (l : list A) :
  List.filter p (List.filter (λ x, negb (p x)) l) = [].
Proof.
  apply filter_bool_nil. intros x [Hx _]%elem_of_filter_bool.
  by apply negb_true_iff.
Qed.

Lemma filter_bool_filter_other {A} (p q : A → bool) (l : list A) :
  (∀ x, p x = true → q x = true) →
  List.filter p (List.filter q l) = List.filter p l.
Proof.
  intros H. induction l as [|x l IH]; [done|]. simpl.
  destruct (q x) eqn:Hq; simpl.
  - by rewrite IH.
  - destruct (p x) eqn:Hp; [|done]. apply H in Hp. congruence.
Qed.

(** [set_webhook] either refuses (no URL) and changes nothing, or leaves the
    caller with exactly one registration: the new one, active, never
    triggered, with the given URL and token, and the one the notifier will
    use.  The registrations of other users stay as they were. *)
Theorem set_webhook_supersedes user data now db :
  match set_webhook user data now db with
  | (Failure status _, db') => db' = db ∧ status = 400
  | (Success _, db') =>
      ∃ w, webhooks_of (User.user_id user) db' = [w] ∧
           active_webhook (User.user_id user) db' = Some w ∧
           Some (UserWebhook.webhook_url w) = default ∅ data !! "url" ∧
           UserWebhook.secret_token w = default ∅ data !! "secret_token" ∧
           UserWebhook.is_active w = true ∧
           UserWebhook.last_triggered w = None ∧
           (UserWebhook.id w ∉
              map UserWebhook.id
                (List.filter
                   (λ w, negb (bool_decide (UserWebhook.user_id w = User.user_id user)))
                   (webhooks db))) ∧
           (∀ other, other ≠ User.user_id user →
                     webhooks_of other db' = webhooks_of other db) ∧
           users db' = users db ∧ messages db' = messages db ∧ disk db' = disk db
  end.
Proof.
  unfold set_webhook. destruct (no_data data); [by auto|]. cbn [orb].
  destruct (truthy_str (default ∅ data !! "url")) eqn:Hu; cbn [negb]; [|by auto].
  eexists. unfold webhooks_of, active_webhook, first.
  cbn [webhooks set_webhooks].
  rewrite !filter_bool_app.
  rewrite (filter_bool_filter_neg
             (λ w, bool_decide (UserWebhook.user_id w = User.user_id user))).
  cbn [List.filter UserWebhook.user_id UserWebhook.is_active].
  rewrite bool_decide_eq_true_2 by done. cbn [andb app].
  assert (List.filter
            (λ w, bool_decide (UserWebhook.user_id w = User.user_id user)
                  && UserWebhook.is_active w)
            (List.filter
               (λ w, negb (bool_decide (UserWebhook.user_id w = User.user_id user)))
               (webhooks db)) = []) as ->.
  { apply filter_bool_nil. intros x [Hx _]%elem_of_filter_bool.
    apply negb_true_iff in Hx. by rewrite Hx. }
  split_and!; try done.
  - simpl. by destruct (default ∅ data !! "url").
  - apply next_id_fresh.
  - intros other Hother. rewrite filter_bool_app.
    cbn [List.filter UserWebhook.user_id].
    rewrite bool_decide_eq_false_2 by congruence.
    rewrite app_nil_r. apply filter_bool_filter_other.
    intros w Hw%bool_decide_eq_true. apply negb_true_iff, bool_decide_eq_false.
    congruence.
Qed.

(** A request to a route behind [require_api_key] whose key is missing,
    empty, or held by no active user changes nothing. *)
Theorem unauthenticated_request_unchanged sf now r db key
    (Hroute : request_key r = Some key)
    (Hkey : ∀ u, u ∈ users db → Some (User.api_key u) = key →
                 User.is_active u = false) :
  handle sf now r db = db.
Proof.
  assert (∀ A (f : User.t → DB → response A * DB),
            (require_api_key key now f db).2 = db) as Hauth.
  { intros A f. unfold require_api_key.
    destruct (truthy_str key); cbn [negb]; [|done].
    destruct (first _ (users db)) as [u|] eqn:Ef; [|done].
    apply first_Some in Ef as [[Hk Ha]%andb_true_iff Hin].
    apply bool_decide_eq_true in Hk. rewrite (Hkey u Hin Hk) in Ha. done. }
  destruct r; simplify_eq/=; apply Hauth.
Qed.

(** ** The expiry sweep *)

Lemma foldl_cleanup_message_messages old db m :
  m ∈ messages (foldl cleanup_message db old) ↔
  m ∈ messages db ∧ Message.id m ∉ map Message.id old.
Proof.
  revert db. induction old as [|x old IH]; intros db; simpl.
  - split; [intros H; split; [done|apply not_elem_of_nil]|by intros [H _]].
  - rewrite IH, messages_cleanup_message, elem_of_filter_bool, not_elem_of_cons.
    rewrite negb_true_iff, bool_decide_eq_false. tauto.
Qed.

Lemma disk_cleanup_message_eq db x :
  disk (cleanup_message db x) =
  if path_exists (Message.file_path x) db
  then disk db ∖ {[ default "" (Message.file_path x) ]} else disk db.
Proof.
  unfold cleanup_message.
  destruct (path_exists _ db), (truthy_int _); try done; by destruct (sender_of _ _).
Qed.

Lemma disk_cleanup_message db x :
  disk (cleanup_message db x) ⊆ disk db ∧
  (truthy_str (Message.file_path x) = true →
   default "" (Message.file_path x) ∉ disk (cleanup_message db x)).
Proof.
  rewrite disk_cleanup_message_eq. unfold path_exists.
  destruct (truthy_str (Message.file_path x)); cbn [andb].
  - case_bool_decide as Hd.
    + split; [apply subseteq_difference_l; done|].
      intros _ [_ Hn]%elem_of_difference. apply Hn. by apply elem_of_singleton.
    + done.
  - done.
Qed.

Lemma foldl_cleanup_message_disk old db :
  disk (foldl cleanup_message db old) ⊆ disk db.
Proof.
  revert db. induction old as [|x old IH]; intros db; simpl; [done|].
  etrans; [apply IH|apply disk_cleanup_message].
Qed.

Lemma foldl_cleanup_message_removed old db x :
  x ∈ old → truthy_str (Message.file_path x) = true →
  default "" (Message.file_path x) ∉ disk (foldl cleanup_message db old).
Proof.
  revert db. induction old as [|y old IH]; intros db Hx Ht; simpl.
  - by apply elem_of_nil in Hx.
  - apply elem_of_cons in Hx as [->|Hx]; [|by apply IH].
    intros Hin. apply foldl_cleanup_message_disk in Hin.
    by apply (proj2 (disk_cleanup_message db y)).
Qed.

Lemma webhooks_cleanup_old_messages now db :
  webhooks (cleanup_old_messages now db) = webhooks db.
Proof.
  unfold cleanup_old_messages. generalize (List.filter
    (λ m, bool_decide (Message.sent_at m < now - hours MESSAGE_AUTO_DELETE_HOURS))
    (messages db)). intros old. revert db.
  induction old as [|x old IH]; intros db; simpl; [done|]. rewrite IH.
  unfold cleanup_message.
  destruct (path_exists _ db), (truthy_int _); try done; by destruct (sender_of _ _).
Qed.

(** On a store with distinct sequence numbers, the expiry sweep keeps
    exactly the messages sent within the last 24 hours, each as it was;
    the file of every message it deletes is gone from the disk, no file
    appears, and the webhook registrations are untouched. *)
Theorem cleanup_old_messages_effect now db
    (Hnd : NoDup (map Message.id (messages db))) :
  let db' := cleanup_old_messages now db in
  (∀ m, m ∈ messages db' ↔ m ∈ messages db ∧ ¬ expired now m) ∧
  (∀ m, m ∈ messages db → expired now m →
        truthy_str (Message.file_path m) = true →
        default "" (Message.file_path m) ∉ disk db') ∧
  disk db' ⊆ disk db ∧
  webhooks db' = webhooks db.
Proof.
  intros db'. subst db'. split_and!.
  - intros m. unfold cleanup_old_messages, expired.
    rewrite foldl_cleanup_message_messages. split.
    + intros [Hm Hold]. split; [done|]. intros Hexp. apply Hold.
      apply list_elem_of_fmap_2, elem_of_filter_bool.
      split; [by apply bool_decide_eq_true|done].
    + intros [Hm Hexp]. split; [done|].
      intros (x & Hid & [Hx Hxdb]%elem_of_filter_bool)%list_elem_of_fmap.
      apply bool_decide_eq_true in Hx.
      assert (x = m) as -> by (by apply (ids_inj (messages db))). done.
  - intros m Hm Hexp Ht. apply foldl_cleanup_message_removed; [|done].
    apply elem_of_filter_bool. split; [by apply bool_decide_eq_true|done].
  - apply foldl_cleanup_message_disk.
  - apply webhooks_cleanup_old_messages.
Qed.

(** ** Chat history and previews *)

Lemma sublist_drop_limit {A} n k (rows : list A) :
  limit n (drop k rows) `sublist_of` rows.
Proof. etrans; [apply limit_sublist|apply sublist_drop]. Qed.

(** [get_chat_history] changes nothing; it refuses only when no other user
    is named, and otherwise hands out snapshots of stored messages
    exchanged between the caller and the other user, newest first, no more
    than the limit (50 when none is given) unless the limit is negative. *)
Theorem get_chat_history_page user other_user_id limit_arg offset_arg db :
  match get_chat_history user other_user_id limit_arg offset_arg db with
  | (Failure status _, db') =>
      db' = db ∧ status = 400 ∧ truthy_str other_user_id = false
  | (Success page, db') =>
      db' = db ∧
      (∀ u, u ∈ page →
         (∃ m, m ∈ messages db ∧ u = to_dict m) ∧
         ((md_sender_id u = User.user_id user ∧ Some (md_receiver_id u) = other_user_id) ∨
          (Some (md_sender_id u) = other_user_id ∧ md_receiver_id u = User.user_id user))) ∧
      StronglySorted (λ a b, md_sent_at b ≤ md_sent_at a) page ∧
      (default 50 limit_arg < 0 ∨
       (length page ≤ Z.to_nat (default 50%Z limit_arg))%nat)
  end.
Proof.
  unfold get_chat_history.
  destruct (truthy_str other_user_id) eqn:Ho; cbn [negb]; [|by auto].
  set (rows := order_by _ _).
  split; [done|]. split_and!.
  - intros u (m & -> & Hm)%list_elem_of_fmap.
    apply (sublist_subseteq _ _ (sublist_drop_limit _ _ _)) in Hm.
    apply elem_of_order_by, elem_of_filter_bool in Hm as [Hp Hm].
    split; [eauto|]. simpl.
    apply orb_true_iff in Hp as [[H1 H2]%andb_true_iff|[H1 H2]%andb_true_iff];
      apply bool_decide_eq_true in H1, H2; auto.
  - apply (StronglySorted_fmap to_dict (key_le (λ m, - Message.sent_at m))).
    + intros a b Hab. unfold key_le in Hab. simpl. lia.
    + eapply StronglySorted_sublist; [apply sublist_drop_limit|apply order_by_sorted].
  - change (map to_dict ?l) with (to_dict <$> l). rewrite length_fmap.
    apply limit_length.
Qed.




(** Characters, not bytes: the paper clip is one character of four bytes. *)
Example len_paper_clip :
  len "📎 notes" = 7%nat ∧ String.length "📎 notes" = 10%nat ∧
  slice_to 1 "📎 notes" = "📎".
Proof. by vm_compute. Qed.


(** A text of 100 characters and 106 bytes is previewed whole. *)
Example text_preview_paper_clips :
  let s := "📎📎aaaaaaaaaaaaaaaaaaaaaaaaaaaaaaaaaaaaaaaaaaaaaaaaaaaaaaaaaaaaaaaaaaaaaaaaaaaaaaaaaaaaaaaaaaaaaaaaaa"%string in
  len s = 100%nat ∧ String.length s = 106%nat ∧ text_preview (Some s) = Some s.
Proof. by vm_compute. Qed.

(** ** The ledger against the stored messages *)

Lemma total_app w ms1 ms2 : total w (ms1 ++ ms2) = total w ms1 + total w ms2.
Proof. unfold total. induction ms1 as [|m ms1 IH]; simpl; lia. Qed.

Lemma total_map w (h : Message.t → Message.t) ms :
  (∀ m, w (h m) = w m) → total w (map h ms) = total w ms.
Proof. intros H. unfold total. induction ms as [|m ms IH]; simpl; [done|]. by rewrite H, IH. Qed.

Lemma total_ge w ms x :
  (∀ m, m ∈ ms → 0 ≤ w m) → x ∈ ms → w x ≤ total w ms.
Proof.
  unfold total. induction ms as [|m ms IH]; intros Hw Hx; simpl.
  - by apply elem_of_nil in Hx.
  - assert (0 ≤ foldr (λ m acc, w m + acc) 0 ms) as Hnn.
    { clear -Hw. induction ms as [|y ms IH]; simpl; [lia|].
      assert (0 ≤ w y) by (apply Hw; right; by left).
      assert (0 ≤ foldr (λ m acc, w m + acc) 0 ms); [|lia].
      apply IH. intros z [->|Hz]%elem_of_cons; apply Hw; [by left|by do 2 right]. }
    assert (0 ≤ w m) by (apply Hw; by left).
    apply elem_of_cons in Hx as [->|Hx]; [lia|].
    assert (w x ≤ foldr (λ m acc, w m + acc) 0 ms); [|lia].
    apply IH; [|done]. intros y Hy. apply Hw. by right.
Qed.

Lemma filter_other_ids (ms : list Message.t) pk :
  pk ∉ map Message.id ms →
  List.filter (λ m, negb (bool_decide (Message.id m = pk))) ms = ms.
Proof.
  induction ms as [|m ms IH]; simpl; [done|].
  intros [Hm Hms]%not_elem_of_cons.
  rewrite bool_decide_eq_false_2 by done. simpl. by rewrite IH.
Qed.

Lemma total_delete w ms x :
  NoDup (map Message.id ms) → x ∈ ms →
  total w ms =
  total w (List.filter (λ m, negb (bool_decide (Message.id m = Message.id x))) ms) + w x.
Proof.
  unfold total. induction ms as [|m ms IH]; simpl; intros Hnd Hx.
  - by apply elem_of_nil in Hx.
  - apply NoDup_cons in Hnd as [Hm Hnd].
    apply elem_of_cons in Hx as [->|Hx].
    + rewrite bool_decide_eq_true_2 by done. simpl.
      rewrite filter_other_ids by done. lia.
    + rewrite bool_decide_eq_false_2.
      * simpl. rewrite (IH Hnd Hx). lia.
      * intros Heq. apply Hm. rewrite Heq. by apply list_elem_of_fmap_2.
Qed.

Lemma stored_file_bytes_total user_id db :
  stored_file_bytes user_id db = total (billed_bytes user_id) (messages db).
Proof.
  unfold stored_file_bytes, sent_by, total, billed_bytes.
  induction (messages db) as [|m ms IH]; simpl; [done|].
  case_bool_decide; simpl; [|lia].
  destruct (Message.file_size m); simpl; rewrite <-IH; reflexivity.
Qed.

Lemma stored_message_count_total user_id db :
  stored_message_count user_id db = total (billed_count user_id) (messages db).
Proof.
  unfold stored_message_count, sent_by, total, billed_count.
  induction (messages db) as [|m ms IH]; simpl; [done|].
  case_bool_decide; simpl; lia.
Qed.

Lemma key_inj {A B} (key : A → B) (l : list A) x y :
  NoDup (map key l) → x ∈ l → y ∈ l → key x = key y → x = y.
Proof.
  induction l as [|a l IH]; simpl; intros Hnd Hx Hy Hk.
  - by apply elem_of_nil in Hx.
  - apply NoDup_cons in Hnd as [Ha Hnd].
    apply elem_of_cons in Hx as [->|Hx]; apply elem_of_cons in Hy as [->|Hy].
    + done.
    + exfalso. apply Ha. rewrite Hk. by apply list_elem_of_fmap_2.
    + exfalso. apply Ha. rewrite <-Hk. by apply list_elem_of_fmap_2.
    + by apply IH.
Qed.

Lemma map_key_preserved {A B} (key : A → B) (g : A → A) (l : list A) :
  (∀ x, key (g x) = key x) → map key (map g l) = map key l.
Proof. intros H. induction l as [|x l IH]; simpl; [done|]. by rewrite H, IH. Qed.

Lemma first_None {A} (p : A → bool) (rows : list A) x :
  first p rows = None → x ∈ rows → p x = false.
Proof.
  unfold first. induction rows as [|y rows IH]; simpl; intros Hf Hx.
  - by apply elem_of_nil in Hx.
  - destruct (p y) eqn:Hp; [done|].
    apply elem_of_cons in Hx as [->|Hx]; [done|by apply IH].
Qed.

(** The rows of [update_user] keep the ledger when the written row does
    and the other rows are billed as before. *)
Lemma Forall_at_pk (P : User.t → Prop) us pk f :
  (∀ u, u ∈ us → User.id u = pk → P (f u)) →
  (∀ u, u ∈ us → User.id u ≠ pk → P u) →
  Forall P (map (at_pk pk f) us).
Proof.
  intros Hf Hu. apply Forall_forall. intros u' (u & -> & Hin)%list_elem_of_fmap.
  unfold at_pk. case_decide; auto.
Qed.

Lemma at_pk_key {B} (key : User.t → B) pk f u :
  (∀ u, key (f u) = key u) → key (at_pk pk f u) = key u.
Proof. intros H. unfold at_pk. by case_decide. Qed.

Lemma total_zero w ms : (∀ m, m ∈ ms → w m = 0) → total w ms = 0.
Proof.
  unfold total. induction ms as [|m ms IH]; intros H; simpl; [done|].
  rewrite (H m) by (by left). rewrite IH; [done|]. intros y Hy. apply H. by right.
Qed.

Lemma billed_bytes_other user_id m :
  Message.sender_id m ≠ user_id → billed_bytes user_id m = 0.
Proof. intros H. unfold billed_bytes. by rewrite bool_decide_eq_false_2. Qed.

Lemma billed_count_other user_id m :
  Message.sender_id m ≠ user_id → billed_count user_id m = 0.
Proof. intros H. unfold billed_count. by rewrite bool_decide_eq_false_2. Qed.

Lemma billed_bytes_own m :
  billed_bytes (Message.sender_id m) m = default 0 (Message.file_size m).
Proof. unfold billed_bytes. by rewrite bool_decide_eq_true_2. Qed.

Lemma billed_count_own m : billed_count (Message.sender_id m) m = 1.
Proof. unfold billed_count. by rewrite bool_decide_eq_true_2. Qed.

(** Writing a row without touching its keys or its ledger. *)
Lemma tables_ok_neutral us ms pk f :
  (∀ u, User.id (f u) = User.id u) →
  (∀ u, User.user_id (f u) = User.user_id u) →
  (∀ u, User.storage_used (f u) = User.storage_used u) →
  (∀ u, User.message_count (f u) = User.message_count u) →
  tables_ok us ms → tables_ok (map (at_pk pk f) us) ms.
Proof.
  intros Hid Huid Hsu Hmc (Hwf & Hpk & Hu & Hok & Hsend & Hled).
  unfold tables_ok.
  rewrite !map_key_preserved by (intros; by apply at_pk_key).
  split_and!; try done.
  apply Forall_at_pk.
  - intros u Hin _. rewrite Forall_forall in Hled. specialize (Hled u Hin).
    unfold ledger_ok in *. by rewrite Hsu, Hmc, Huid.
  - intros u Hin _. rewrite Forall_forall in Hled. by apply Hled.
Qed.

(** Appending a message under a fresh key and billing it to its sender. *)
Lemma tables_ok_send us ms sender m f :
  tables_ok us ms → sender ∈ us →
  message_ok m →
  Message.id m = next_id (map Message.id ms) →
  Message.sender_id m = User.user_id sender →
  User.storage_used sender + default 0 (Message.file_size m) ≤ MAX_USER_STORAGE →
  (∀ u, User.id (f u) = User.id u) →
  (∀ u, User.user_id (f u) = User.user_id u) →
  (∀ u, User.storage_used (f u) =
        User.storage_used u + default 0 (Message.file_size m)) →
  (∀ u, User.message_count (f u) = User.message_count u + 1) →
  tables_ok (map (at_pk (User.id sender) f) us) (ms ++ [m]).
Proof.
  intros (Hwf & Hpk & Hu & Hok & Hsend & Hled) Hin Hm Hfresh Hsender Hcap
         Hid Huid Hsu Hmc.
  unfold tables_ok.
  rewrite !map_key_preserved by (intros; by apply at_pk_key).
  rewrite Forall_forall in Hled.
  split_and!; try done.
  - apply (transition_wf (λ _ _, False) ms); [|done]. right. left. eauto.
  - apply Forall_app. split; [done|]. by apply Forall_singleton.
  - apply Forall_app. split; [done|]. apply Forall_singleton.
    rewrite Hsender. by apply list_elem_of_fmap_2.
  - apply Forall_at_pk.
    + intros u Hu_in Hu_id.
      assert (u = sender) as -> by (by apply (key_inj User.id us)).
      destruct (Hled sender Hin) as (Hs1 & Hs2 & Hs3).
      unfold ledger_ok. rewrite Hsu, Hmc, Huid, !total_app. unfold total at 2 4.
      simpl. rewrite <-Hsender, billed_bytes_own, billed_count_own.
      rewrite Hsender. lia.
    + intros u Hu_in Hu_id. destruct (Hled u Hu_in) as (Hs1 & Hs2 & Hs3).
      assert (Message.sender_id m ≠ User.user_id u) as Hne.
      { rewrite Hsender. intros Heq. apply Hu_id.
        by rewrite (key_inj User.user_id us sender u Hu Hin Hu_in Heq). }
      unfold ledger_ok. rewrite !total_app. unfold total at 2 4. simpl.
      rewrite billed_bytes_other, billed_count_other by done. lia.
Qed.

(** Deleting a stored message and taking it off its sender's ledger, when
    the sender is found. *)
Lemma tables_ok_delete us ms x f :
  tables_ok us ms → x ∈ ms →
  (∀ u, User.id (f u) = User.id u) →
  (∀ u, User.user_id (f u) = User.user_id u) →
  (∀ u, 0 ≤ default 0 (Message.file_size x) ≤ User.storage_used u →
        User.storage_used (f u) =
        User.storage_used u - default 0 (Message.file_size x)) →
  (∀ u, User.message_count u - 1 ≤ User.message_count (f u)) →
  tables_ok
    (match first (λ u, bool_decide (User.user_id u = Message.sender_id x)) us with
     | Some s => map (at_pk (User.id s) f) us
     | None => us
     end)
    (List.filter (λ m, negb (bool_decide (Message.id m = Message.id x))) ms).
Proof.
  intros (Hwf & Hpk & Hu & Hok & Hsend & Hled) Hx Hid Huid Hsu Hmc.
  set (ms' := List.filter _ ms).
  assert (ms' `sublist_of` ms) as Hsub by apply filter_bool_sublist.
  assert (ids_wf ms') as Hwf'.
  { apply (transition_wf (λ _ _, False) ms); [by left|done]. }
  assert (Forall message_ok ms') as Hok'.
  { rewrite Forall_forall in *. intros m Hm. apply Hok. by eapply sublist_subseteq. }
  assert (Forall (λ m, Message.sender_id m ∈ map User.user_id us) ms') as Hsend'.
  { rewrite Forall_forall in *. intros m Hm. apply Hsend. by eapply sublist_subseteq. }
  assert (∀ w, total w ms = total w ms' + w x) as Htot.
  { intros w. apply total_delete; [by destruct Hwf|done]. }
  assert (0 ≤ default 0 (Message.file_size x)) as Hsz.
  { rewrite Forall_forall in Hok. by destruct (Hok x Hx) as (_ & [? _]). }
  assert (∀ uid m, m ∈ ms → 0 ≤ billed_bytes uid m) as Hnn.
  { intros uid m Hm. unfold billed_bytes. case_bool_decide; [|done].
    rewrite Forall_forall in Hok. by destruct (Hok m Hm) as (_ & [? _]). }
  rewrite Forall_forall in Hled.
  assert (∀ u, u ∈ us → User.user_id u ≠ Message.sender_id x → ledger_ok ms' u)
    as Hother.
  { intros u Hin Hne. destruct (Hled u Hin) as (Hs1 & Hs2 & Hs3).
    unfold ledger_ok. rewrite (Htot (billed_bytes _)) in Hs1.
    rewrite (Htot (billed_count _)) in Hs3.
    rewrite billed_bytes_other in Hs1 by done.
    rewrite billed_count_other in Hs3 by done. split_and!; lia. }
  destruct (first _ us) as [s|] eqn:Ef.
  - apply first_Some in Ef as [Hs%bool_decide_eq_true Hs_in].
    unfold tables_ok.
    rewrite !map_key_preserved by (intros; by apply at_pk_key).
    split_and!; try done.
    apply Forall_at_pk.
    + intros u Hu_in Hu_id.
      assert (u = s) as -> by (by apply (key_inj User.id us)).
      destruct (Hled s Hs_in) as (Hs1 & Hs2 & Hs3).
      rewrite (Htot (billed_bytes _)) in Hs1. rewrite (Htot (billed_count _)) in Hs3.
      rewrite Hs, billed_bytes_own in Hs1. rewrite Hs, billed_count_own in Hs3.
      assert (default 0 (Message.file_size x) ≤ User.storage_used s) as Hle.
      { rewrite Hs1.
        assert (0 ≤ total (billed_bytes (Message.sender_id x)) ms'); [|lia].
        clear -Hnn Hsub. unfold total.
        assert (∀ m, m ∈ ms' → 0 ≤ billed_bytes (Message.sender_id x) m) as H.
        { intros m Hm. apply Hnn. by eapply sublist_subseteq. }
        clear Hsub. induction ms' as [|m l IH]; simpl; [done|].
        assert (0 ≤ billed_bytes (Message.sender_id x) m) by (apply H; by left).
        assert (0 ≤ foldr (λ m acc, billed_bytes (Message.sender_id x) m + acc) 0 l);
          [|lia].
        apply IH. intros y Hy. apply H. by right. }
      unfold ledger_ok. rewrite Huid, Hs, (Hsu s) by lia.
      pose proof (Hmc s). split_and!; lia.
    + intros u Hu_in Hu_id. apply Hother; [done|].
      intros Heq. apply Hu_id. rewrite <-Hs in Heq.
      by rewrite (key_inj User.user_id us u s Hu Hu_in Hs_in Heq).
  - unfold tables_ok. split_and!; try done.
    apply Forall_forall. intros u Hin. apply Hother; [done|].
    apply (first_None _ _ u) in Ef; [|done]. by apply bool_decide_eq_false in Ef.
Qed.

Lemma keeps_billing_at pk f : keeps_billing f → keeps_billing (at_message pk f).
Proof. intros H m. unfold at_message. case_decide; [apply H|done]. Qed.

(** Rewriting stored messages in place, keeping keys, senders and files. *)
Lemma tables_ok_rewrite us ms h :
  keeps_billing h → tables_ok us ms → tables_ok us (map h ms).
Proof.
  intros Hh (Hwf & Hpk & Hu & Hok & Hsend & Hled). unfold tables_ok.
  split_and!; try done.
  - apply (transition_wf (λ _ _, True) ms); [|done]. right. right.
    exists h. split; [done|]. intros m _. split; [apply Hh|by right].
  - rewrite Forall_forall in *. intros m' (m & -> & Hm)%list_elem_of_fmap.
    specialize (Hok m Hm). destruct (Hh m) as (_ & _ & Ht & Hs & Hp & Hsa & He).
    unfold message_ok in *. by rewrite Ht, Hs, Hp.
  - rewrite Forall_forall in *. intros m' (m & -> & Hm)%list_elem_of_fmap.
    destruct (Hh m) as (_ & -> & _). by apply Hsend.
  - rewrite Forall_forall in *. intros u Hin. specialize (Hled u Hin).
    unfold ledger_ok in *. rewrite !total_map; [done|..].
    + intros m. unfold billed_count. by destruct (Hh m) as (_ & -> & _).
    + intros m. unfold billed_bytes.
      by destruct (Hh m) as (_ & -> & _ & -> & _).
Qed.

(** Adding a user under a fresh key and a fresh [user_id], with an empty
    ledger. *)
Lemma tables_ok_register us ms u :
  tables_ok us ms →
  User.id u = next_id (map User.id us) →
  User.user_id u ∉ map User.user_id us →
  User.storage_used u = 0 → User.message_count u = 0 →
  tables_ok (us ++ [u]) ms.
Proof.
  intros (Hwf & Hpk & Hu & Hok & Hsend & Hled) Hid Huid Hsu Hmc.
  unfold tables_ok.
  change (map ?f (us ++ [u])) with (f <$> us ++ [u]). rewrite !fmap_app.
  split_and!; try done.
  - apply NoDup_app. split_and!; [done| |apply NoDup_singleton].
    intros i Hi Hi'%list_elem_of_singleton. simpl in Hi'. subst i.
    rewrite Hid in Hi. by apply next_id_fresh in Hi.
  - apply NoDup_app. split_and!; [done| |apply NoDup_singleton].
    intros i Hi Hi'%list_elem_of_singleton. simpl in Hi'. by subst i.
  - rewrite Forall_forall in *. intros m Hm. apply elem_of_app. left. by apply Hsend.
  - apply Forall_app. split; [done|]. apply Forall_singleton.
    assert (∀ m, m ∈ ms → Message.sender_id m ≠ User.user_id u) as Hne.
    { rewrite Forall_forall in Hsend. intros m Hm Heq. apply Huid.
      rewrite <-Heq. by apply Hsend. }
    unfold ledger_ok. rewrite !total_zero.
    + rewrite Hsu, Hmc. split_and!; [done|by vm_compute|done].
    + intros m Hm. by apply billed_count_other, Hne.
    + intros m Hm. by apply billed_bytes_other, Hne.
Qed.

Lemma state_ok_empty : state_ok empty_db.
Proof.
  unfold state_ok, tables_ok, ids_wf, ids_positive. simpl.
  split_and!; constructor.
Qed.

(** ** The invariant through the handlers *)

Lemma require_api_key_state_ok {A} key now (f : User.t → DB → response A * DB) db :
  state_ok db →
  (∀ user db0, state_ok db0 → user ∈ users db0 → state_ok (f user db0).2) →
  state_ok (require_api_key key now f db).2.
Proof.
  intros Hok Hf. unfold require_api_key.
  destruct (truthy_str key); cbn [negb]; [|done].
  destruct (first _ (users db)) as [user|] eqn:Ef; [|done].
  apply first_Some in Ef as [_ Hin]. apply Hf.
  - by apply tables_ok_neutral.
  - cbn [users update_user set_users].
    apply (list_elem_of_fmap_2' _ _ user); [done|]. by rewrite decide_True.
Qed.

Lemma sender_within_cap us ms sender :
  tables_ok us ms → sender ∈ us → User.storage_used sender ≤ MAX_USER_STORAGE.
Proof.
  intros (_ & _ & _ & _ & _ & Hled) Hin. rewrite Forall_forall in Hled.
  by destruct (Hled sender Hin) as (_ & ? & _).
Qed.

Lemma send_message_state_ok sender data message_id now inserted_at db :
  state_ok db → sender ∈ users db →
  state_ok (send_message sender data message_id now inserted_at db).2.
Proof.
  intros Hok Hin. unfold send_message.
  repeat (match goal with |- context [if ?b then _ else _] => destruct b end;
          [done|]).
  destruct (reply_link _ db) as [rs rt].
  pose proof (sender_within_cap _ _ _ Hok Hin).
  apply (tables_ok_send (users db) (messages db) sender); try done.
  all: simpl; try lia.
  unfold message_ok. simpl. split_and!; try done.
  by destruct (truthy_str (default ∅ data !! "reply_to_message_id")).
Qed.

Lemma send_file_state_ok sf sender files form file_id message_id now inserted_at db :
  state_ok db → sender ∈ users db →
  (∀ file_, files = Files (Some file_) → 0 ≤ content_length file_) →
  state_ok (send_file sf sender files form file_id message_id now inserted_at db).2.
Proof.
  intros Hok Hin Hsane. unfold send_file.
  destruct files as [|[file_|]]; [done| |done]. specialize (Hsane file_ eq_refl).
  case_bool_decide; [done|].
  destruct (negb _); [done|].
  case_decide as Hsize; [done|]. case_decide as Hquota; [done|].
  destruct (negb _); [done|].
  destruct (reply_link _ db) as [rs rt].
  destruct (_ && _); [|done].
  apply (tables_ok_send (users db) (messages db) sender); try done.
Qed.

Lemma update_message_state_ok pk f db :
  keeps_billing f → state_ok db → state_ok (update_message pk f db).
Proof.
  intros Hf Hok. apply (tables_ok_rewrite _ _ (at_message pk f)); [|done].
  by apply keeps_billing_at.
Qed.

Lemma mark_delivered_state_ok db x : state_ok db → state_ok (mark_delivered db x).
Proof.
  intros Hok. unfold mark_delivered. destruct (Message.is_delivered x); [done|].
  by apply update_message_state_ok.
Qed.

Lemma get_updates_state_ok user offset limit_arg timeout_arg db :
  state_ok db → state_ok (get_updates user offset limit_arg timeout_arg db).2.
Proof.
  intros Hok. rewrite get_updates_eq. simpl.
  generalize (polled user offset limit_arg timeout_arg db). intros xs.
  revert db Hok. induction xs as [|x xs IH]; intros db Hok; simpl; [done|].
  by apply IH, mark_delivered_state_ok.
Qed.

Lemma download_file_state_ok user file_id reentered_at db :
  state_ok db → state_ok (download_file user file_id reentered_at db).2.
Proof.
  intros Hok. unfold download_file.
  destruct (first _ (messages db)); [|done].
  destruct (_ && _); [done|]. destruct (negb _); [done|].
  apply tables_ok_neutral; try done.
  by apply update_message_state_ok.
Qed.

Lemma send_webhook_notification_state_ok user_id message_data post now db :
  state_ok db →
  state_ok (send_webhook_notification user_id message_data post now db).2.
Proof.
  intros Hok. unfold send_webhook_notification.
  destruct (active_webhook user_id db); [|done]. destruct post; [|done].
  cbn [snd]. destruct (first _ _); [|done].
  by apply (update_message_state_ok _ _ (update_webhook _ _ db)).
Qed.

Lemma register_user_state_ok data api_key now db :
  state_ok db → state_ok (register_user data api_key now db).2.
Proof.
  intros Hok. unfold register_user. destruct (no_data data); [done|].
  destruct (_ || _) eqn:Hreq; [done|].
  destruct (first _ (users db)) eqn:Ef; [done|].
  apply orb_false_iff in Hreq as [[Hu _]%orb_false_iff _].
  apply negb_false_iff in Hu.
  destruct (default ∅ data !! "user_id") as [uid|] eqn:Euid; [|done].
  apply (tables_ok_register (users db) (messages db)); try done.
  intros (u & Heq & Hin)%list_elem_of_fmap.
  apply (first_None _ _ u) in Ef; [|done].
  apply orb_false_iff in Ef as [[Hx _]%orb_false_iff _].
  apply bool_decide_eq_false in Hx. simpl in Heq. congruence.
Qed.

Lemma init_db_state_ok api_key now db : state_ok db → state_ok (init_db api_key now db).
Proof.
  intros Hok. unfold init_db. destruct (first _ (users db)) eqn:Ef; [done|].
  apply (tables_ok_register (users db) (messages db)); try done.
  intros (u & Heq & Hin)%list_elem_of_fmap.
  apply (first_None _ _ u) in Ef; [|done].
  apply bool_decide_eq_false in Ef. simpl in Heq. congruence.
Qed.

Lemma map_at_pk_id pk (us : list User.t) : map (at_pk pk (λ u, u)) us = us.
Proof.
  induction us as [|u us IH]; simpl; [done|]. rewrite IH.
  unfold at_pk. by case_decide.
Qed.

Lemma truthy_int_size (size : option Z) :
  if truthy_int size then or_zero size = default 0 size else default 0 size = 0.
Proof. by destruct size as [[]|]. Qed.

Lemma cleanup_message_state_ok db x :
  state_ok db → x ∈ messages db → state_ok (cleanup_message db x).
Proof.
  intros Hok Hx. unfold state_ok. rewrite messages_cleanup_message.
  pose proof (truthy_int_size (Message.file_size x)) as Hsz.
  assert (users (cleanup_message db x) =
          match first (λ u, bool_decide (User.user_id u = Message.sender_id x))
                      (users db) with
          | Some s =>
              map (at_pk (User.id s)
                     (if truthy_int (Message.file_size x)
                      then λ u, User.with_message_count (Z.max 0 (User.message_count u - 1))
                                  (User.with_storage_used
                                     (Z.max 0 (User.storage_used u
                                               - or_zero (Message.file_size x))) u)
                      else λ u, u)) (users db)
          | None => users db
          end) as ->.
  { unfold cleanup_message, sender_of.
    destruct (path_exists _ db); cbn [users os_remove set_disk];
      destruct (truthy_int _); cbn [users delete_message set_messages];
      destruct (first _ (users db)); try done; by rewrite map_at_pk_id. }
  apply tables_ok_delete; try done.
  - intros u. by destruct (truthy_int _).
  - intros u. by destruct (truthy_int _).
  - intros u Hle. destruct (truthy_int _); simpl; [rewrite Hsz|]; lia.
  - intros u. destruct (truthy_int _); simpl; lia.
Qed.

Lemma delete_loop_step (ms : list Message.t) x rest :
  NoDup (map Message.id (x :: rest)) →
  (∀ y, y ∈ x :: rest → y ∈ ms) →
  NoDup (map Message.id rest) ∧
  ∀ y, y ∈ rest →
       y ∈ List.filter (λ m, negb (bool_decide (Message.id m = Message.id x))) ms.
Proof.
  simpl. intros [Hx Hnd]%NoDup_cons Hin. split; [done|].
  intros y Hy. apply elem_of_filter_bool. split; [|apply Hin; by right].
  apply negb_true_iff, bool_decide_eq_false. intros Heq. apply Hx.
  rewrite <-Heq. by apply list_elem_of_fmap_2.
Qed.

Lemma foldl_cleanup_message_state_ok old db :
  state_ok db → NoDup (map Message.id old) → (∀ x, x ∈ old → x ∈ messages db) →
  state_ok (foldl cleanup_message db old).
Proof.
  revert db. induction old as [|x old IH]; intros db Hok Hnd Hin; simpl; [done|].
  destruct (delete_loop_step (messages db) x old Hnd Hin) as [Hnd' Hin'].
  apply IH; [|done|].
  - apply cleanup_message_state_ok; [done|]. apply Hin. by left.
  - by rewrite messages_cleanup_message.
Qed.

Lemma cleanup_old_messages_state_ok now db :
  state_ok db → state_ok (cleanup_old_messages now db).
Proof.
  intros Hok. unfold cleanup_old_messages. apply foldl_cleanup_message_state_ok.
  - done.
  - destruct Hok as ([Hnd _] & _).
    apply (sublist_NoDup _ (map Message.id (messages db))); [done|].
    apply fmap_sublist, filter_bool_sublist.
  - intros x Hx. by apply elem_of_filter_bool in Hx as [_ ?].
Qed.

Lemma global_loop_cons total_storage message rest deleted_size db :
  global_loop total_storage (message :: rest) deleted_size db =
  if decide (total_storage - deleted_size ≤ MAX_TOTAL_STORAGE) then db
  else global_loop total_storage rest
         (if path_exists (Message.file_path message) db
          then deleted_size + default 0 (Message.file_size message)
          else deleted_size)
         (global_turn db message).
Proof.
  simpl. case_decide; [done|]. unfold global_turn.
  by destruct (path_exists _ db).
Qed.

Lemma messages_global_turn db x :
  messages (global_turn db x) =
  List.filter (λ m, negb (bool_decide (Message.id m = Message.id x))) (messages db).
Proof.
  unfold global_turn, delete_message.
  destruct (path_exists _ db); by destruct (sender_of _ _).
Qed.

Lemma global_turn_state_ok db x :
  state_ok db → x ∈ messages db → state_ok (global_turn db x).
Proof.
  intros Hok Hx. unfold state_ok. rewrite messages_global_turn.
  assert (users (global_turn db x) =
          match first (λ u, bool_decide (User.user_id u = Message.sender_id x))
                      (users db) with
          | Some s =>
              map (at_pk (User.id s)
                     (λ u, User.with_message_count (Z.max 0 (User.message_count u - 1))
                             (User.with_storage_used
                                (Z.max 0 (User.storage_used u
                                          - default 0 (Message.file_size x))) u)))
                  (users db)
          | None => users db
          end) as ->.
  { unfold global_turn, sender_of.
    destruct (path_exists _ db); cbn [users os_remove set_disk];
      by destruct (first _ (users db)). }
  apply tables_ok_delete; try done.
  - intros u Hle. simpl. lia.
  - intros u. simpl. lia.
Qed.

Lemma global_loop_state_ok total_storage files deleted_size db :
  state_ok db → NoDup (map Message.id files) → (∀ x, x ∈ files → x ∈ messages db) →
  state_ok (global_loop total_storage files deleted_size db).
Proof.
  revert deleted_size db.
  induction files as [|x files IH]; intros deleted_size db Hok Hnd Hin; [done|].
  rewrite global_loop_cons. case_decide; [done|].
  destruct (delete_loop_step (messages db) x files Hnd Hin) as [Hnd' Hin'].
  apply IH; [|done|].
  - apply global_turn_state_ok; [done|]. apply Hin. by left.
  - by rewrite messages_global_turn.
Qed.

(** Under the invariant no account is above the per-user cap, so the
    per-user loop is not entered. *)
Lemma enforce_user_state_ok db pk : state_ok db → enforce_user db pk = db.
Proof.
  intros Hok. unfold enforce_user, get_user.
  destruct (first _ (users db)) as [user|] eqn:Ef; [|done].
  apply first_Some in Ef as [_ Hin].
  pose proof (sender_within_cap _ _ _ Hok Hin). by rewrite decide_False by lia.
Qed.

Lemma foldl_enforce_user_state_ok pks db :
  state_ok db → foldl enforce_user db pks = db.
Proof.
  intros Hok. induction pks as [|pk pks IH]; simpl; [done|].
  by rewrite enforce_user_state_ok.
Qed.

Lemma file_rows_of db :
  NoDup (map Message.id (messages db)) →
  let files := order_by Message.sent_at (List.filter has_file_size (messages db)) in
  NoDup (map Message.id files) ∧ ∀ x, x ∈ files → x ∈ messages db ∧ has_file_size x = true.
Proof.
  intros Hnd files. subst files. split.
  - change (NoDup (Message.id <$> order_by Message.sent_at
                     (List.filter has_file_size (messages db)))).
    rewrite order_by_Permutation.
    apply (sublist_NoDup _ (map Message.id (messages db))); [done|].
    apply fmap_sublist, filter_bool_sublist.
  - intros x Hx%elem_of_order_by%elem_of_filter_bool. tauto.
Qed.

Lemma enforce_storage_limits_state_ok db :
  state_ok db → state_ok (enforce_storage_limits db).
Proof.
  intros Hok. unfold enforce_storage_limits.
  set (db1 := if decide (get_total_storage_used db > MAX_TOTAL_STORAGE) then _ else db).
  assert (state_ok db1) as Hok1.
  { subst db1. case_decide; [|done].
    destruct Hok as ([Hnd Hpos] & Hrest).
    destruct (file_rows_of db Hnd) as [Hfnd Hfin].
    apply global_loop_state_ok; [by split|done|]. intros x Hx. by apply Hfin. }
  by rewrite foldl_enforce_user_state_ok.
Qed.

Lemma handle_state_ok sf now r db :
  state_ok db → sane r → state_ok (handle sf now r db).
Proof.
  intros Hok Hsane. destruct r; simpl handle.
  - by apply init_db_state_ok.
  - by apply register_user_state_ok.
  - apply require_api_key_state_ok; [done|]. intros. by apply send_message_state_ok.
  - apply require_api_key_state_ok; [done|]. intros. apply send_file_state_ok; try done.
    intros file_ Hp. unfold parse_files in Hp. case_decide; [done|].
    injection Hp as ->. done.
  - apply require_api_key_state_ok; [done|]. intros. by apply get_updates_state_ok.
  - apply require_api_key_state_ok; [done|]. intros user db0 H0 _.
    unfold get_chat_history. by destruct (negb _).
  - apply require_api_key_state_ok; [done|]. intros. by apply download_file_state_ok.
  - apply require_api_key_state_ok; [done|]. intros user db0 H0 _.
    unfold set_webhook. by destruct (_ || _).
  - apply require_api_key_state_ok; [done|]. by intros.
  - by apply send_webhook_notification_state_ok.
  - by apply enforce_storage_limits_state_ok, cleanup_old_messages_state_ok.
Qed.

Lemma serve_state_ok sf trace db :
  state_ok db → Forall (λ e, sane e.2) trace → state_ok (serve sf trace db).
Proof.
  unfold serve. revert db. induction trace as [|[now r] trace IH]; intros db Hok Hs.
  - done.
  - apply Forall_cons in Hs as [Hr Hs]. simpl. apply IH; [|done].
    by apply handle_state_ok.
Qed.

(** ** The global cap *)

Lemma get_total_storage_used_total db :
  get_total_storage_used db =
  total (λ m, default 0 (Message.file_size m)) (messages db).
Proof.
  unfold get_total_storage_used, total.
  induction (messages db) as [|m ms IH]; simpl; [done|].
  destruct (Message.file_size m); simpl; rewrite <-IH; reflexivity.
Qed.

Lemma total_no_files ms :
  (∀ m, m ∈ ms → has_file_size m = false) →
  total (λ m, default 0 (Message.file_size m)) ms = 0.
Proof.
  intros H. apply total_zero. intros m Hm. specialize (H m Hm).
  unfold has_file_size in H. by destruct (Message.file_size m).
Qed.

Lemma disk_global_turn db x :
  disk (global_turn db x) =
  if path_exists (Message.file_path x) db
  then disk db ∖ {[ default "" (Message.file_path x) ]} else disk db.
Proof.
  unfold global_turn. destruct (path_exists _ db); by destruct (sender_of _ _).
Qed.

Lemma path_exists_other db x y :
  path_exists (Message.file_path x) db = true →
  path_exists (Message.file_path y) db = true →
  Message.file_path y ≠ Message.file_path x →
  path_exists (Message.file_path y) (global_turn db x) = true.
Proof.
  unfold path_exists at 1 2. intros [Hx1 Hx2]%andb_true_iff [Hy1 Hy2]%andb_true_iff Hne.
  unfold path_exists at 1. rewrite disk_global_turn.
  unfold path_exists. rewrite Hx1, Hy1. rewrite Hx2. simpl.
  apply bool_decide_eq_true in Hy2. apply bool_decide_eq_true.
  apply elem_of_difference. split; [done|]. intros Heq%elem_of_singleton.
  apply Hne. destruct (Message.file_path x), (Message.file_path y); simpl in *; congruence.
Qed.

Lemma global_loop_spec total_storage files deleted_size db :
  NoDup (map Message.id (messages db)) →
  StronglySorted (key_le Message.sent_at) files →
  NoDup (map Message.file_path files) →
  (∀ x, x ∈ files → x ∈ messages db ∧ has_file_size x = true ∧
                    path_exists (Message.file_path x) db = true) →
  (∀ m, m ∈ messages db → has_file_size m = true → m ∈ files) →
  get_total_storage_used db = total_storage - deleted_size →
  let db' := global_loop total_storage files deleted_size db in
  get_total_storage_used db' ≤ MAX_TOTAL_STORAGE ∧
  (∀ m m', m ∈ messages db → has_file_size m = true → m ∉ messages db' →
           m' ∈ messages db' → has_file_size m' = true →
           Message.sent_at m ≤ Message.sent_at m') ∧
  (∀ m, m ∈ messages db → has_file_size m = false → m ∈ messages db').
Proof.
  revert deleted_size db.
  induction files as [|x files IH];
    intros deleted_size db Hnd Hsorted Hpaths Hfiles Hall Htotal db'.
  - subst db'. simpl. split_and!; [|done|done].
    rewrite get_total_storage_used_total, total_no_files; [by vm_compute|].
    intros m Hm. destruct (has_file_size m) eqn:E; [|done].
    by apply Hall, elem_of_nil in E.
  - subst db'. rewrite global_loop_cons. case_decide as Hbreak.
    { split_and!; [lia|done|done]. }
    destruct (Hfiles x) as (Hx & Hxf & Hxp); [by left|].
    apply StronglySorted_inv in Hsorted as [Hsorted Hle].
    simpl in Hpaths. apply NoDup_cons in Hpaths as [Hxpath Hpaths].
    assert (∀ y, y ∈ files → Message.id y ≠ Message.id x) as Hids.
    { intros y Hy Heq. apply Hxpath.
      destruct (Hfiles y) as (Hydb & _); [by right|].
      assert (y = x) as <- by (by apply (ids_inj (messages db))).
      by apply list_elem_of_fmap_2. }
    rewrite Hxp.
    destruct (IH (deleted_size + default 0 (Message.file_size x)) (global_turn db x))
      as (Hcap & Hold & Hkeep).
    + rewrite messages_global_turn.
      apply (sublist_NoDup _ (map Message.id (messages db))); [done|].
      apply fmap_sublist, filter_bool_sublist.
    + done.
    + done.
    + intros y Hy. destruct (Hfiles y) as (Hydb & Hyf & Hyp); [by right|].
      split_and!; [|done|].
      * rewrite messages_global_turn. apply elem_of_filter_bool. split; [|done].
        apply negb_true_iff, bool_decide_eq_false. by apply Hids.
      * apply path_exists_other; [done|done|]. intros Heq. apply Hxpath.
        rewrite <-Heq. by apply list_elem_of_fmap_2.
    + intros m Hm Hf. rewrite messages_global_turn in Hm.
      apply elem_of_filter_bool in Hm as [Hne Hm].
      apply negb_true_iff, bool_decide_eq_false in Hne.
      pose proof (Hall m Hm Hf) as Hmem.
      apply elem_of_cons in Hmem as [->|?]; done.
    + rewrite !get_total_storage_used_total in *. rewrite messages_global_turn.
      rewrite (total_delete _ (messages db) x Hnd Hx) in Htotal. lia.
    + split_and!; [done| |].
      * intros m m' Hm Hf Hgone Hm' Hf'.
        destruct (decide (Message.id m = Message.id x)) as [Heq|Hne].
        -- assert (m = x) as -> by (by apply (ids_inj (messages db))).
           assert (m' ∈ messages (global_turn db x)) as Hm'1.
           { eapply sublist_subseteq; [apply global_loop_sublist|done]. }
           rewrite messages_global_turn in Hm'1.
           apply elem_of_filter_bool in Hm'1 as [Hne' Hm'db].
           apply negb_true_iff, bool_decide_eq_false in Hne'.
           pose proof (Hall m' Hm'db Hf') as Hmem.
           apply elem_of_cons in Hmem as [->|Hin]; [done|].
           rewrite Forall_forall in Hle. by apply Hle.
        -- apply Hold; try done. rewrite messages_global_turn.
           apply elem_of_filter_bool. split; [|done].
           by apply negb_true_iff, bool_decide_eq_false.
      * intros m Hm Hf. apply Hkeep; [|done]. rewrite messages_global_turn.
        apply elem_of_filter_bool. split; [|done].
        apply negb_true_iff, bool_decide_eq_false. intros Heq.
        assert (m = x) as -> by (by apply (ids_inj (messages db))). congruence.
Qed.

(** When every stored file is on disk under its own path, one run of
    [enforce_storage_limits] on a state that satisfies the invariant leaves
    the stored files within the global cap of 700 MiB.  It deletes
    oldest-sent first: a file message it deleted was sent no later than any
    file message it kept.  It deletes no message without a file, and
    nothing at all when the total is within the cap. *)
Theorem enforce_storage_limits_global_cap db
    (Hok : state_ok db) (Hdisk : files_on_disk db) :
  let db' := enforce_storage_limits db in
  get_total_storage_used db' ≤ MAX_TOTAL_STORAGE ∧
  (∀ m m', m ∈ messages db → has_file_size m = true → m ∉ messages db' →
           m' ∈ messages db' → has_file_size m' = true →
           Message.sent_at m ≤ Message.sent_at m') ∧
  (∀ m, m ∈ messages db → has_file_size m = false → m ∈ messages db') ∧
  (get_total_storage_used db ≤ MAX_TOTAL_STORAGE → db' = db).
Proof.
  intros db'. subst db'. unfold enforce_storage_limits.
  set (db1 := if decide (get_total_storage_used db > MAX_TOTAL_STORAGE) then _ else db).
  assert (state_ok db1) as Hok1.
  { subst db1. case_decide; [|done].
    destruct (file_rows_of db (proj1 (proj1 Hok))) as [Hfnd Hfin].
    apply global_loop_state_ok; [done|done|]. intros x Hx. by apply Hfin. }
  rewrite foldl_enforce_user_state_ok by done. subst db1.
  case_decide as Hover.
  - destruct Hok as ([Hnd Hpos] & _). destruct Hdisk as [Hpaths Hon].
    destruct (file_rows_of db Hnd) as [Hfnd Hfin].
    set (files := order_by Message.sent_at (List.filter has_file_size (messages db))).
    assert (StronglySorted (key_le Message.sent_at) files) as P1
      by apply order_by_sorted.
    assert (NoDup (map Message.file_path files)) as P2.
    { change (NoDup (Message.file_path <$> files)). subst files.
      by rewrite order_by_Permutation. }
    assert (∀ x, x ∈ files → x ∈ messages db ∧ has_file_size x = true ∧
                             path_exists (Message.file_path x) db = true) as P3.
    { intros x Hx. destruct (Hfin x Hx) as [Hxdb Hxf]. split_and!; [done|done|].
      rewrite Forall_forall in Hon. by apply Hon. }
    assert (∀ m, m ∈ messages db → has_file_size m = true → m ∈ files) as P4.
    { intros m Hm Hf. by apply elem_of_order_by, elem_of_filter_bool. }
    assert (get_total_storage_used db = get_total_storage_used db - 0) as P5 by lia.
    destruct (global_loop_spec (get_total_storage_used db) files 0 db
                Hnd P1 P2 P3 P4 P5) as (H1 & H2 & H3).
    split_and!; [done|done|done|lia].
  - split_and!; [lia| |done|done]. intros m m' Hm _ Hgone. done.
Qed.

(** ** The invariant along any sequence of requests *)

Lemma total_nonneg w ms : (∀ m, m ∈ ms → 0 ≤ w m) → 0 ≤ total w ms.
Proof.
  unfold total. induction ms as [|m ms IH]; intros H; simpl; [done|].
  assert (0 ≤ w m) by (apply H; by left).
  assert (0 ≤ foldr (λ m acc, w m + acc) 0 ms); [|lia].
  apply IH. intros y Hy. apply H. by right.
Qed.

(** From the empty database, after any sequence of requests, notification
    threads and background cycles whose uploads have a non-negative length,
    every user's [storage_used] is exactly the bytes of the stored files it
    sent, lies between 0 and the per-user cap, and its [message_count] is
    not below the number of stored messages it sent. *)
Theorem ledger_after_requests sf trace u
    (Hsane : Forall (λ e, sane e.2) trace)
    (Hin : u ∈ users (serve sf trace empty_db)) :
  let db := serve sf trace empty_db in
  User.storage_used u = stored_file_bytes (User.user_id u) db ∧
  0 ≤ User.storage_used u ≤ MAX_USER_STORAGE ∧
  0 ≤ stored_message_count (User.user_id u) db ≤ User.message_count u.
Proof.
  intros db. subst db.
  destruct (serve_state_ok sf trace empty_db state_ok_empty Hsane)
    as (_ & _ & _ & Hok & _ & Hled).
  rewrite Forall_forall in Hled. rewrite Forall_forall in Hok.
  destruct (Hled u Hin) as (H1 & H2 & H3).
  rewrite stored_file_bytes_total, stored_message_count_total.
  split_and!; [done| |done| |done].
  - rewrite H1. apply total_nonneg. intros m Hm. unfold billed_bytes.
    case_bool_decide; [|done]. by destruct (Hok m Hm) as (_ & [? _]).
  - apply total_nonneg. intros m _. unfold billed_count. by case_bool_decide.
Qed.

(** Along such a sequence every stored message keeps the shape it was
    created with: a file message has a size and a path, any other has
    neither; the size is between 0 and 30 MiB; the sender is a registered
    user; and the sequence number is positive and belongs to this message
    only. *)
Theorem stored_message_after_requests sf trace m
    (Hsane : Forall (λ e, sane e.2) trace)
    (Hin : m ∈ messages (serve sf trace empty_db)) :
  let db := serve sf trace empty_db in
  (Message.message_type m = file →
   is_Some (Message.file_size m) ∧ truthy_str (Message.file_path m) = true) ∧
  (Message.message_type m ≠ file →
   Message.file_size m = None ∧ Message.file_path m = None) ∧
  0 ≤ default 0 (Message.file_size m) ≤ 30 * 1024 * 1024 ∧
  (∃ u, u ∈ users db ∧ User.user_id u = Message.sender_id m) ∧
  0 < Message.id m ∧
  (∀ m', m' ∈ messages db → Message.id m' = Message.id m → m' = m).
Proof.
  intros db. subst db.
  destruct (serve_state_ok sf trace empty_db state_ok_empty Hsane)
    as ([Hnd Hpos] & _ & _ & Hok & Hsend & _).
  unfold ids_positive in Hpos. rewrite Forall_forall in Hok.
  rewrite Forall_forall in Hsend. rewrite Forall_forall in Hpos.
  destruct (Hok m Hin) as (Hshape & Hsize).
  split_and!; try done; try lia.
  - intros Ht. by rewrite decide_True in Hshape.
  - intros Ht. by rewrite decide_False in Hshape.
  - specialize (Hsend m Hin). apply list_elem_of_fmap in Hsend as (u & Hu & Huin).
    by exists u.
  - by apply Hpos.
  - intros m' Hm' Hid. by apply (ids_inj (messages (serve sf trace empty_db))).
Qed.

(** Along such a sequence no two users share a primary key or a
    [user_id]. *)
Theorem users_distinct_after_requests sf trace u u'
    (Hsane : Forall (λ e, sane e.2) trace)
    (Hin : u ∈ users (serve sf trace empty_db))
    (Hin' : u' ∈ users (serve sf trace empty_db))
    (Hsame : User.id u = User.id u' ∨ User.user_id u = User.user_id u') :
  u = u'.
Proof.
  destruct (serve_state_ok sf trace empty_db state_ok_empty Hsane)
    as (_ & Hpk & Hu & _).
  destruct Hsame as [H|H].
  - by apply (key_inj User.id (users (serve sf trace empty_db))).
  - by apply (key_inj User.user_id (users (serve sf trace empty_db))).
Qed.

(** Along such a sequence the per-user phase of the eviction never finds
    an account above its cap: it deletes nothing. *)
Theorem per_user_cap_idle sf trace pk
    (Hsane : Forall (λ e, sane e.2) trace) :
  enforce_user (serve sf trace empty_db) pk = serve sf trace empty_db.
Proof.
  apply enforce_user_state_ok. by apply serve_state_ok; [apply state_ok_empty|].
Qed.

(** ** Registration *)

Lemma first_app_None {A} (p : A → bool) (rows : list A) x :
  first p rows = None → p x = true → first p (rows ++ [x]) = Some x.
Proof.
  unfold first. intros Hn Hx. rewrite List.filter_app.
  destruct (List.filter p rows); [|done]. simpl. by rewrite Hx.
Qed.

(** [register_user] either refuses with status 400 and changes nothing, or
    adds one user: with the three names of the request, none of them empty
    and none of them taken by an existing user, under a fresh primary key,
    active, not an admin, with an empty ledger. *)
Theorem register_user_effect data api_key now db :
  match register_user data api_key now db with
  | (Failure status _, db') => db' = db ∧ status = 400
  | (Success u, db') =>
      db' = set_users (users db ++ [u]) db ∧
      Some (User.user_id u) = default ∅ data !! "user_id" ∧
      Some (User.username u) = default ∅ data !! "username" ∧
      Some (User.email u) = default ∅ data !! "email" ∧
      User.user_id u ≠ "" ∧ User.username u ≠ "" ∧ User.email u ≠ "" ∧
      (∀ v, v ∈ users db →
            User.user_id v ≠ User.user_id u ∧ User.username v ≠ User.username u ∧
            User.email v ≠ User.email u ∧ User.id v ≠ User.id u) ∧
      User.api_key u = api_key ∧
      User.storage_used u = 0 ∧ User.message_count u = 0 ∧
      User.is_active u = true ∧ User.is_admin u = false
  end.
Proof.
  unfold register_user. destruct (no_data data); [done|].
  destruct (default ∅ data !! "user_id") as [[|a uid]|] eqn:E1; try done.
  destruct (default ∅ data !! "username") as [[|b uname]|] eqn:E2; try done.
  destruct (default ∅ data !! "email") as [[|c mail]|] eqn:E3; try done.
  cbn [truthy_str negb orb].
  destruct (first _ (users db)) eqn:Ef; [done|].
  simpl. split_and!; try done.
  intros v Hv. apply (first_None _ _ v) in Ef; [|done].
  apply orb_false_iff in Ef as [[H1 H2]%orb_false_iff H3].
  apply bool_decide_eq_false in H1, H2, H3.
  split_and!; try congruence.
  intros Heq. apply (next_id_fresh (map User.id (users db))).
  rewrite <-Heq. by apply list_elem_of_fmap_2.
Qed.

(** [init_db] makes sure a user [admin] exists, and running it again
    changes nothing. *)
Theorem init_db_idempotent api_key now api_key' now' db :
  (∃ admin, admin ∈ users (init_db api_key now db) ∧ User.user_id admin = "admin") ∧
  init_db api_key' now' (init_db api_key now db) = init_db api_key now db.
Proof.
  unfold init_db at 1 3 4.
  destruct (first _ (users db)) as [admin|] eqn:Ef.
  - split.
    + apply first_Some in Ef as [Hid%bool_decide_eq_true Hin]. eauto.
    + unfold init_db. by rewrite Ef.
  - set (admin := new_user _ _ _ _ _ _ _).
    split.
    + exists admin. split; [|done]. cbn [users set_users].
      apply elem_of_app. right. by left.
    + unfold init_db. cbn [users set_users].
      by rewrite (first_app_None _ _ admin Ef).
Qed.

(** ** Replaying a poll *)

Lemma filter_bool_map {A} (p : A → bool) (h : A → A) (l : list A) :
  (∀ x, p (h x) = p x) → List.filter p (map h l) = map h (List.filter p l).
Proof.
  intros H. induction l as [|x l IH]; simpl; [done|]. rewrite H, IH.
  by destruct (p x).
Qed.

Lemma order_by_ids_map (h : Message.t → Message.t) (l : list Message.t) :
  (∀ m, Message.id (h m) = Message.id m) →
  map Message.id (order_by Message.id (map h l)) =
  map Message.id (order_by Message.id l).
Proof.
  intros Hh. apply (StronglySorted_unique Z.le).
  - apply (StronglySorted_fmap Message.id (key_le Message.id)); [done|].
    apply order_by_sorted.
  - apply (StronglySorted_fmap Message.id (key_le Message.id)); [done|].
    apply order_by_sorted.
  - change (Message.id <$> order_by Message.id (map h l)
            ≡ₚ Message.id <$> order_by Message.id l).
    rewrite !order_by_Permutation.
    change (map Message.id (map h l) ≡ₚ map Message.id l).
    by rewrite map_key_preserved.
Qed.

Lemma limit_map {A B} (f : A → B) n (l : list A) :
  map f (limit n l) = limit n (map f l).
Proof. unfold limit. case_decide; [done|]. apply fmap_take. Qed.

Lemma polled_ids_map user offset limit_arg timeout_arg db db1 h :
  messages db1 = map h (messages db) →
  (∀ m, Message.id (h m) = Message.id m) →
  (∀ m, Message.receiver_id (h m) = Message.receiver_id m) →
  map Message.id (polled user offset limit_arg timeout_arg db1) =
  map Message.id (polled user offset limit_arg timeout_arg db).
Proof.
  intros Hms Hid Hr. unfold polled, updates_query. rewrite Hms.
  rewrite !limit_map. f_equal. rewrite filter_bool_map.
  - by apply order_by_ids_map.
  - intros m. by rewrite Hid, Hr.
Qed.

Lemma foldl_mark_delivered_noop xs db :
  (∀ x, x ∈ xs → Message.is_delivered x = true) →
  foldl mark_delivered db xs = db.
Proof.
  induction xs as [|x xs IH]; intros H; simpl; [done|].
  unfold mark_delivered at 2. rewrite (H x) by (by left).
  apply IH. intros y Hy. apply H. by right.
Qed.

(** A poll repeated with the same offset hands out the same messages
    again.  On a store with distinct sequence numbers, the same poll run
    on the state the first one left returns the same sequence numbers and
    the same [next_offset], now all shown as delivered, and changes
    nothing. *)
Theorem get_updates_replay user offset limit_arg timeout_arg db
    (Hwf : ids_wf (messages db)) :
  let first_poll := get_updates user offset limit_arg timeout_arg db in
  let second_poll := get_updates user offset limit_arg timeout_arg first_poll.2 in
  ∃ body1 body2,
    first_poll.1 = Success body1 ∧ second_poll.1 = Success body2 ∧
    map update_id (updates_list body2) = map update_id (updates_list body1) ∧
    next_offset body2 = next_offset body1 ∧
    (∀ u, u ∈ updates_list body2 → md_is_delivered u = true) ∧
    second_poll.2 = first_poll.2.
Proof.
  destruct Hwf as [Hnd Hpos]. intros first_poll second_poll.
  subst second_poll first_poll. rewrite !get_updates_eq. cbn [fst snd].
  set (xs := polled user offset limit_arg timeout_arg db).
  set (db1 := foldl mark_delivered db xs).
  set (h := λ m, if touched xs m then delivered_once m else m).
  assert (messages db1 = map h (messages db)) as Hms.
  { subst db1. apply messages_mark_delivered. by apply polled_NoDup. }
  assert (map Message.id (polled user offset limit_arg timeout_arg db1)
          = map Message.id xs) as Hids.
  { apply (polled_ids_map _ _ _ _ _ _ h); [done|..];
      intros m; unfold h; by destruct (touched xs m). }
  set (ys := polled user offset limit_arg timeout_arg db1) in *.
  assert (∀ y, y ∈ ys → Message.is_delivered y = true) as Hdel.
  { intros y Hy.
    destruct (polled_elem_of user offset limit_arg timeout_arg db1 y Hy) as (Hy1 & _).
    rewrite Hms in Hy1. apply list_elem_of_fmap in Hy1 as (m & -> & Hm).
    unfold h. destruct (touched xs m) eqn:Et; [done|].
    destruct (Message.is_delivered m) eqn:Ed; [done|]. exfalso.
    assert (Message.id (h m) ∈ map Message.id xs) as Hin.
    { rewrite <-Hids. by apply list_elem_of_fmap_2. }
    apply list_elem_of_fmap in Hin as (x & Hid & Hx).
    destruct (polled_elem_of user offset limit_arg timeout_arg db x Hx) as (Hxdb & _).
    assert (Message.id m = Message.id x) as Hmx.
    { rewrite <-Hid. unfold h. by destruct (touched xs m). }
    assert (x = m) as -> by (by apply (ids_inj (messages db))).
    assert (touched xs m = true) by (apply touched_true; eauto). congruence. }
  eexists _, _. split; [reflexivity|]. split; [reflexivity|]. cbn [updates_list next_offset].
  split_and!.
  - by rewrite !update_ids.
  - rewrite Hids. destruct ys as [|y ys'] eqn:Ey, xs as [|x xs'] eqn:Ex; try done.
  - intros u (y & -> & Hy)%list_elem_of_fmap. simpl. by apply Hdel.
  - by apply foldl_mark_delivered_noop.
Qed.

(** ** Replies *)

(** A reply to a message that is not stored (deleted, or never there) is
    sent like any other: when the send succeeds, the stored message is of
    type reply, names the target, and carries neither the target's sender
    nor a preview of its text; so does the snapshot handed to the
    notifier. *)
Theorem reply_to_missing_message sender data message_id now inserted_at db target
    (Htarget : default ∅ data !! "reply_to_message_id" = Some target)
    (Hnamed : target ≠ "")
    (Hmissing : ∀ m, m ∈ messages db → Message.message_id m ≠ target) :
  match send_message sender data message_id now inserted_at db with
  | (Failure status _, db') => db' = db
  | (Success s, db') =>
      ∃ m, messages db' = messages db ++ [m] ∧
           Message.message_type m = reply ∧
           Message.reply_to_message_id m = Some target ∧
           Message.reply_to_sender_id m = None ∧
           Message.reply_to_text m = None ∧
           md_reply_to (notify_message_data s) =
             Some {| rd_message_id := Some target; rd_sender_id := None;
                     rd_text_preview := None |}
  end.
Proof.
  unfold send_message.
  repeat (match goal with |- context [if ?b then _ else _] => destruct b end;
          [done|]).
  rewrite Htarget. unfold reply_link.
  assert (truthy_str (Some target) = true) as -> by (by destruct target).
  destruct (first _ (messages db)) as [m0|] eqn:Ef.
  { apply first_Some in Ef as [Hid%bool_decide_eq_true Hin].
    exfalso. apply (Hmissing m0 Hin). congruence. }
  eexists. split; [reflexivity|]. simpl.
  assert (truthy_str (Some target) = true) as Ht by (by destruct target).
  unfold truthy_str in Ht. by rewrite Ht.
Qed.

(** ** The statements above at concrete states *)

Lemma get_updates_marks_delivered_witness :
  ∃ body db',
    get_updates bob_row None None None file_after_poll = (Success body, db') ∧
    (∀ u, u ∈ updates_list body →
       ∃ m, m ∈ messages file_after_poll ∧ u = to_dict m ∧
            (if Message.is_delivered m then m else delivered_once m) ∈ messages db') ∧
    messages db' =
      map (λ m, if bool_decide (Message.id m ∈ map update_id (updates_list body))
                   && negb (Message.is_delivered m)
                then delivered_once m else m) (messages file_after_poll).
Proof.
  apply (get_updates_marks_delivered bob_row None None None file_after_poll).
  apply (bool_decide_unpack _). vm_compute. exact I.
Defined.

(** Bob's second poll from the start: the text he has seen keeps its
    counter, the file is marked and counted once. *)
Example second_poll_counts :
  let r := get_updates bob_row None None None file_after_poll in
  map (λ m, (Message.is_delivered m, Message.read_count m)) (messages file_after_poll)
    = [(true, 1); (false, 0)] ∧
  (∃ body, r.1 = Success body ∧
           map (λ u, (md_is_delivered u, md_read_count u)) (updates_list body)
             = [(true, 1); (false, 0)]) ∧
  map (λ m, (Message.is_delivered m, Message.read_count m)) (messages r.2)
    = [(true, 1); (true, 1)].
Proof. split_and!; [by vm_compute|eexists; by vm_compute|by vm_compute]. Qed.

Lemma resumed_poll_skips_next_message_witness :
  (get_updates bob_row (Some 2) None None
     (send_message (alice_row 0 1) text_to_bob "m2" 30 30
        (get_updates bob_row None None None after_text).2).2).1
  = Success {| updates_list := []; next_offset := 2 |}.
Proof.
  assert (ids_wf (messages after_text)) as Hwf
    by (apply (bool_decide_unpack _); vm_compute; exact I).
  assert ((get_updates bob_row None None None after_text).1 = Success first_page)
    as Hpoll by (vm_compute; reflexivity).
  assert (updates_list first_page ≠ []) as Hpage by discriminate.
  assert (∀ m, m ∈ messages after_text → Message.id m < next_offset first_page)
    as Hnewest.
  { intros m Hm. assert (messages after_text = [text_message]) as E
      by (vm_compute; reflexivity).
    rewrite E in Hm. apply list_elem_of_singleton in Hm. subst m.
    vm_compute. reflexivity. }
  pose proof (resumed_poll_skips_next_message bob_row None None None after_text
                first_page (alice_row 0 1) text_to_bob "m2" 30 30
                Hwf Hpoll Hpage Hnewest) as H.
  cbv zeta in H.
  destruct ((send_message (alice_row 0 1) text_to_bob "m2" 30 30
               (get_updates bob_row None None None after_text).2).1) eqn:E.
  - destruct H as (_ & _ & H). exact (H None None).
  - vm_compute in E. discriminate E.
Defined.

Lemma unauthenticated_request_unchanged_witness :
  handle id 0 (GetMe None) two_users = two_users.
Proof.
  apply (unauthenticated_request_unchanged id 0 (GetMe None) two_users None).
  - reflexivity.
  - intros u _ H. discriminate H.
Defined.

Lemma cleanup_old_messages_effect_witness :
  (∀ m, m ∈ messages (cleanup_old_messages 90000 after_file) ↔
        m ∈ messages after_file ∧ ¬ expired 90000 m) ∧
  (∀ m, m ∈ messages after_file → expired 90000 m →
        truthy_str (Message.file_path m) = true →
        default "" (Message.file_path m)
          ∉ disk (cleanup_old_messages 90000 after_file)) ∧
  disk (cleanup_old_messages 90000 after_file) ⊆ disk after_file ∧
  webhooks (cleanup_old_messages 90000 after_file) = webhooks after_file.
Proof.
  apply (cleanup_old_messages_effect 90000 after_file).
  apply (bool_decide_unpack _). vm_compute. exact I.
Defined.

(** The global cap at a store of 800 MiB. *)
Lemma enforce_storage_limits_global_cap_witness :
  let db' := enforce_storage_limits full_store in
  get_total_storage_used db' ≤ MAX_TOTAL_STORAGE ∧
  (∀ m m', m ∈ messages full_store → has_file_size m = true → m ∉ messages db' →
           m' ∈ messages db' → has_file_size m' = true →
           Message.sent_at m ≤ Message.sent_at m') ∧
  (∀ m, m ∈ messages full_store → has_file_size m = false → m ∈ messages db') ∧
  (get_total_storage_used full_store ≤ MAX_TOTAL_STORAGE → db' = full_store).
Proof.
  apply (enforce_storage_limits_global_cap full_store).
  - apply (bool_decide_unpack _). vm_compute. exact I.
  - apply (bool_decide_unpack _). vm_compute. exact I.
Defined.

(** There the run deletes the four oldest files and stops at the cap. *)
Example full_store_evicted :
  get_total_storage_used full_store = 800 * MiB ∧
  map Message.id (messages full_store) = seqZ 1 32 ∧
  get_total_storage_used (enforce_storage_limits full_store) = 700 * MiB ∧
  map Message.id (messages (enforce_storage_limits full_store)) = seqZ 5 28 ∧
  size (disk full_store) = 32%nat ∧
  size (disk (enforce_storage_limits full_store)) = 28%nat.
Proof. by vm_compute. Qed.

Lemma example_trace_sane : Forall (λ e, sane e.2) example_trace.
Proof. apply (bool_decide_unpack _). vm_compute. exact I. Defined.

Lemma ledger_after_requests_witness :
  User.storage_used alice_after
    = stored_file_bytes (User.user_id alice_after) (serve id example_trace empty_db) ∧
  0 ≤ User.storage_used alice_after ≤ MAX_USER_STORAGE ∧
  0 ≤ stored_message_count (User.user_id alice_after)
        (serve id example_trace empty_db)
    ≤ User.message_count alice_after.
Proof.
  apply (ledger_after_requests id example_trace alice_after example_trace_sane).
  vm_compute. apply list_elem_of_here.
Defined.

Lemma stored_message_after_requests_witness :
  (Message.message_type notes_message = file →
   is_Some (Message.file_size notes_message) ∧
   truthy_str (Message.file_path notes_message) = true) ∧
  (Message.message_type notes_message ≠ file →
   Message.file_size notes_message = None ∧ Message.file_path notes_message = None) ∧
  0 ≤ default 0 (Message.file_size notes_message) ≤ 30 * 1024 * 1024 ∧
  (∃ u, u ∈ users (serve id example_trace empty_db) ∧
        User.user_id u = Message.sender_id notes_message) ∧
  0 < Message.id notes_message ∧
  (∀ m', m' ∈ messages (serve id example_trace empty_db) →
         Message.id m' = Message.id notes_message → m' = notes_message).
Proof.
  apply (stored_message_after_requests id example_trace notes_message
           example_trace_sane).
  vm_compute. apply list_elem_of_further, list_elem_of_here.
Defined.

Lemma users_distinct_after_requests_witness : alice_after = alice_after.
Proof.
  apply (users_distinct_after_requests id example_trace alice_after alice_after
           example_trace_sane).
  - vm_compute. apply list_elem_of_here.
  - vm_compute. apply list_elem_of_here.
  - left. reflexivity.
Defined.

Lemma per_user_cap_idle_witness :
  enforce_user (serve id example_trace empty_db) 1 = serve id example_trace empty_db.
Proof. apply (per_user_cap_idle id example_trace 1 example_trace_sane). Defined.

Lemma get_updates_replay_witness :
  ∃ body1 body2,
    (get_updates bob_row None None None after_file).1 = Success body1 ∧
    (get_updates bob_row None None None
       (get_updates bob_row None None None after_file).2).1 = Success body2 ∧
    map update_id (updates_list body2) = map update_id (updates_list body1) ∧
    next_offset body2 = next_offset body1 ∧
    (∀ u, u ∈ updates_list body2 → md_is_delivered u = true) ∧
    (get_updates bob_row None None None
       (get_updates bob_row None None None after_file).2).2
    = (get_updates bob_row None None None after_file).2.
Proof.
  apply (get_updates_replay bob_row None None None after_file).
  apply (bool_decide_unpack _). vm_compute. exact I.
Defined.

Lemma reply_to_missing_message_witness :
  match send_message (alice_row 0 0) reply_to_gone "m1" 10 10 two_users with
  | (Failure status _, db') => db' = two_users
  | (Success s, db') =>
      ∃ m, messages db' = messages two_users ++ [m] ∧
           Message.message_type m = reply ∧
           Message.reply_to_message_id m = Some "gone" ∧
           Message.reply_to_sender_id m = None ∧
           Message.reply_to_text m = None ∧
           md_reply_to (notify_message_data s) =
             Some {| rd_message_id := Some "gone"; rd_sender_id := None;
                     rd_text_preview := None |}
  end.
Proof.
  apply (reply_to_missing_message (alice_row 0 0) reply_to_gone "m1" 10 10 two_users "gone").
  - vm_compute. reflexivity.
  - discriminate.
  - intros m Hm. assert (messages two_users = []) as E by (vm_compute; reflexivity).
    rewrite E in Hm. by apply elem_of_nil in Hm.
Defined.

(** ** The global cap when files are missing *)

Lemma path_exists_global_turn db x p :
  path_exists (Message.file_path x) db = false →
  path_exists p (global_turn db x) = path_exists p db.
Proof.
  intros Hx. unfold path_exists at 1 2. by rewrite disk_global_turn, Hx.
Qed.

Lemma global_loop_missing_files total_storage files db :
  total_storage > MAX_TOTAL_STORAGE →
  (∀ x, x ∈ files → path_exists (Message.file_path x) db = false) →
  ∀ m, m ∈ messages (global_loop total_storage files 0 db) →
       Message.id m ∉ map Message.id files.
Proof.
  intros Hover. revert db.
  induction files as [|x files IH]; intros db Hmissing m Hm.
  - apply not_elem_of_nil.
  - rewrite global_loop_cons in Hm. rewrite decide_False in Hm by lia.
    rewrite (Hmissing x) in Hm by (by left).
    apply not_elem_of_cons. split.
    + apply (sublist_subseteq _ _ (global_loop_sublist _ _ _ _)) in Hm.
      rewrite messages_global_turn in Hm.
      apply elem_of_filter_bool in Hm as [Hne _].
      by apply negb_true_iff, bool_decide_eq_false in Hne.
    + apply (IH (global_turn db x)); [|done]. intros y Hy.
      rewrite path_exists_global_turn; [|apply Hmissing; by left].
      apply Hmissing. by right.
Qed.

(** When the stored files exceed the global cap and none of them is on
    disk any more, [enforce_storage_limits] deletes every message that has
    a file, however far above the cap the total was: the bytes of a file
    that is not on disk are never counted as reclaimed. *)
Theorem enforce_storage_limits_missing_files db m
    (Hover : get_total_storage_used db > MAX_TOTAL_STORAGE)
    (Hmissing : ∀ x, x ∈ messages db → has_file_size x = true →
                     path_exists (Message.file_path x) db = false)
    (Hm : m ∈ messages (enforce_storage_limits db)) :
  has_file_size m = false.
Proof.
  apply (sublist_subseteq _ _ (enforce_storage_limits_sublist db)) in Hm as Hdb.
  unfold enforce_storage_limits in Hm. rewrite decide_True in Hm by done.
  set (files := order_by Message.sent_at (List.filter has_file_size (messages db))) in *.
  set (db1 := global_loop (get_total_storage_used db) files 0 db) in *.
  assert (m ∈ messages db1) as Hm1.
  { revert Hm. generalize (map User.id (users db1)). intros pks. generalize db1.
    induction pks as [|pk pks IH]; intros db0; simpl; [done|].
    intros H%IH. eapply sublist_subseteq; [apply enforce_user_sublist|done]. }
  destruct (has_file_size m) eqn:Hf; [|done]. exfalso.
  apply (global_loop_missing_files (get_total_storage_used db) files db Hover) in Hm1.
  - apply Hm1. apply list_elem_of_fmap_2. subst files.
    by apply elem_of_order_by, elem_of_filter_bool.
  - intros x Hx%elem_of_order_by%elem_of_filter_bool.
    destruct Hx as [Hxf Hx]. by apply Hmissing.
Qed.

(** ** A send and its notification *)

(** The notification of a send marks the message just sent.  When
    [send_message] succeeds under a [message_id] no stored message has, and
    the receiver has an active webhook, the notification thread started with
    the arguments the send hands over, once its call gets any response,
    leaves the new message stored with [webhook_sent] set. *)
Theorem send_then_notify_marks
    sender data message_id now inserted_at db receiver status_code now'
    (Hreceiver : default ∅ data !! "receiver_id" = Some receiver)
    (Hfresh : ∀ m, m ∈ messages db → Message.message_id m ≠ message_id)
    (Hhook : is_Some (active_webhook receiver db)) :
  match send_message sender data message_id now inserted_at db with
  | (Failure _ _, db1) => db1 = db
  | (Success s, db1) =>
      notify_user_id s = receiver ∧
      ∃ m, m ∈ messages
             (send_webhook_notification (notify_user_id s) (notify_message_data s)
                (Responded status_code) now' db1).2 ∧
           Message.id m = sent_update_id s ∧
           Message.message_id m = message_id ∧
           Message.webhook_sent m = true
  end.
Proof.
  unfold send_message.
  repeat (match goal with |- context [if ?b then _ else _] => destruct b end;
          [done|]).
  destruct (reply_link _ db) as [rs rt].
  destruct Hhook as [w Hw]. unfold send_webhook_notification.
  cbn [notify_user_id notify_message_data sent_update_id].
  rewrite Hreceiver. cbn [from_option id].
  split; [done|].
  assert (active_webhook receiver
            (update_user (User.id sender)
               (λ u, User.with_message_count (User.message_count u + 1) u)
               (set_messages
                  (messages db ++
                   [Message.mk (next_id (map Message.id (messages db))) message_id
                      (if truthy_str (default ∅ data !! "reply_to_message_id")
                       then reply else text)
                      (default ∅ data !! "text") None None None None None None
                      (default ∅ data !! "reply_to_message_id") rs rt
                      (User.user_id sender) (User.username sender) receiver
                      inserted_at (now + hours MESSAGE_AUTO_DELETE_HOURS)
                      false 0 false]) db))
          = Some w) as -> by exact Hw.
  cbn [snd messages update_webhook set_webhooks update_user set_users
       set_messages md_message_id to_dict Message.message_id].
  set (new := Message.mk _ _ _ _ _ _ _ _ _ _ _ _ _ _ _ _ _ _ _ _ _).
  assert (first (λ m, bool_decide (Message.message_id m = message_id))
                (messages db ++ [new]) = Some new) as ->.
  { apply first_app_None; [|by apply bool_decide_eq_true].
    destruct (first _ (messages db)) as [m0|] eqn:Ef; [|done].
    apply first_Some in Ef as [Hid%bool_decide_eq_true Hin].
    by destruct (Hfresh m0 Hin). }
  exists (Message.with_webhook_sent true new).
  split; [|done]. cbn [messages update_message set_messages].
  apply (list_elem_of_fmap_2' _ _ new).
  - apply elem_of_app. right. by left.
  - by rewrite decide_True.
Qed.

Lemma enforce_storage_limits_missing_files_witness :
  has_file_size text_message = false.
Proof.
  apply (enforce_storage_limits_missing_files files_lost text_message).
  - vm_compute. reflexivity.
  - intros x _ _. unfold path_exists. apply andb_false_iff. right.
    apply bool_decide_eq_false. apply not_elem_of_empty.
  - vm_compute. apply list_elem_of_here.
Defined.

Lemma send_then_notify_marks_witness :
  match send_message (alice_row 0 1) second_text "m2" 30 30 hooked with
  | (Failure _ _, db1) => db1 = hooked
  | (Success s, db1) =>
      notify_user_id s = "bob" ∧
      ∃ m, m ∈ messages
             (send_webhook_notification (notify_user_id s) (notify_message_data s)
                (Responded 200) 31 db1).2 ∧
           Message.id m = sent_update_id s ∧
           Message.message_id m = "m2" ∧
           Message.webhook_sent m = true
  end.
Proof.
  apply (send_then_notify_marks (alice_row 0 1) second_text "m2" 30 30 hooked "bob" 200 31).
  - vm_compute. reflexivity.
  - intros m Hm. rewrite messages_hooked in Hm.
    apply list_elem_of_singleton in Hm. subst m. discriminate.
  - vm_compute. eexists. reflexivity.
Defined.

(** ** What a request leaves alone *)

Lemma same_accounts_refl db : same_accounts db db.
Proof. by split. Qed.

Lemma same_accounts_trans db1 db2 db3 :
  same_accounts db1 db2 → same_accounts db2 db3 → same_accounts db1 db3.
Proof. intros [H1 H2] [H3 H4]. split; congruence. Qed.

Lemma update_user_same_accounts pk f db :
  (∀ u, User.user_id (f u) = User.user_id u) →
  same_accounts db (update_user pk f db).
Proof.
  intros Hf. split; [done|]. cbn [users update_user set_users].
  apply (map_key_preserved User.user_id (at_pk pk f)). intros u. by apply at_pk_key.
Qed.

Lemma cleanup_message_same_accounts db x : same_accounts db (cleanup_message db x).
Proof.
  unfold cleanup_message.
  destruct (path_exists _ db), (truthy_int _); try (by split);
    destruct (sender_of _ _); try (by split);
    by apply (update_user_same_accounts _ _ (os_remove _ db))
    || by apply update_user_same_accounts.
Qed.

Lemma global_turn_same_accounts db x : same_accounts db (global_turn db x).
Proof.
  unfold global_turn.
  destruct (path_exists _ db); destruct (sender_of _ _); try (by split);
    by apply (update_user_same_accounts _ _ (os_remove _ db))
    || by apply update_user_same_accounts.
Qed.

Lemma global_loop_quiet total_storage files deleted_size db :
  same_accounts db (global_loop total_storage files deleted_size db) ∧
  disk (global_loop total_storage files deleted_size db) ⊆ disk db.
Proof.
  revert deleted_size db. induction files as [|x files IH]; intros deleted_size db.
  - by split.
  - rewrite global_loop_cons. case_decide; [by split|].
    destruct (IH (if path_exists (Message.file_path x) db
                  then deleted_size + default 0 (Message.file_size x)
                  else deleted_size) (global_turn db x)) as [H1 H2].
    split.
    + eapply same_accounts_trans; [apply global_turn_same_accounts|done].
    + etrans; [done|]. rewrite disk_global_turn.
      destruct (path_exists _ db); [apply subseteq_difference_l|]; done.
Qed.

Lemma user_loop_quiet pk files deleted_size db :
  same_accounts db (user_loop pk files deleted_size db) ∧
  disk (user_loop pk files deleted_size db) ⊆ disk db.
Proof.
  revert deleted_size db. induction files as [|x files IH]; intros deleted_size db.
  - by split.
  - simpl. destruct (get_user pk db); [|by split]. case_decide; [by split|].
    destruct (path_exists _ db).
    + destruct (IH (deleted_size + default 0 (Message.file_size x))
                  (delete_message (Message.id x)
                     (update_user pk
                        (λ u, User.with_message_count (User.message_count u - 1)
                                (User.with_storage_used
                                   (User.storage_used u
                                    - default 0 (Message.file_size x)) u))
                        (os_remove (Message.file_path x) db)))) as [H1 H2].
      split.
      * eapply same_accounts_trans; [|done].
        by apply (update_user_same_accounts _ _ (os_remove _ db)).
      * etrans; [done|]. by apply subseteq_difference_l.
    + destruct (IH deleted_size
                  (delete_message (Message.id x)
                     (update_user pk
                        (λ u, User.with_message_count (User.message_count u - 1)
                                (User.with_storage_used
                                   (User.storage_used u
                                    - default 0 (Message.file_size x)) u))
                        db))) as [H1 H2].
      split; [|done].
      eapply same_accounts_trans; [|done]. by apply update_user_same_accounts.
Qed.

Lemma background_cycle_quiet now db :
  same_accounts db (background_cycle now db) ∧
  disk (background_cycle now db) ⊆ disk db.
Proof.
  unfold background_cycle.
  assert (same_accounts db (cleanup_old_messages now db) ∧
          disk (cleanup_old_messages now db) ⊆ disk db) as [Hc1 Hc2].
  { split; [|apply foldl_cleanup_message_disk].
    unfold cleanup_old_messages. generalize (List.filter
      (λ m, bool_decide (Message.sent_at m < now - hours MESSAGE_AUTO_DELETE_HOURS))
      (messages db)). intros old. revert db.
    induction old as [|x old IH]; intros db; simpl; [apply same_accounts_refl|].
    eapply same_accounts_trans; [apply cleanup_message_same_accounts|apply IH]. }
  set (db0 := cleanup_old_messages now db) in *.
  unfold enforce_storage_limits.
  set (db1 := if decide (get_total_storage_used db0 > MAX_TOTAL_STORAGE) then _ else db0).
  assert (same_accounts db0 db1 ∧ disk db1 ⊆ disk db0) as [Hg1 Hg2].
  { subst db1. case_decide; [apply global_loop_quiet|by split]. }
  assert (∀ pks d, same_accounts d (foldl enforce_user d pks) ∧
                   disk (foldl enforce_user d pks) ⊆ disk d) as Hu.
  { induction pks as [|pk pks IH]; intros d; simpl; [by split|].
    destruct (IH (enforce_user d pk)) as [H1 H2].
    assert (same_accounts d (enforce_user d pk) ∧ disk (enforce_user d pk) ⊆ disk d)
      as [H3 H4].
    { unfold enforce_user. destruct (get_user pk d); [|by split].
      case_decide; [apply user_loop_quiet|by split]. }
    split; [by eapply same_accounts_trans|by etrans]. }
  destruct (Hu (map User.id (users db1)) db1) as [H1 H2].
  split.
  - eapply same_accounts_trans; [done|]. by eapply same_accounts_trans.
  - etrans; [done|]. by etrans.
Qed.

Lemma foldl_mark_delivered_quiet xs db :
  same_accounts db (foldl mark_delivered db xs) ∧
  disk (foldl mark_delivered db xs) = disk db.
Proof.
  revert db. induction xs as [|x xs IH]; intros db; simpl; [by split|].
  destruct (IH (mark_delivered db x)) as [[H1 H2] H3].
  unfold mark_delivered in *. by destruct (Message.is_delivered x).
Qed.

Lemma require_api_key_quiet {A} (P : DB → DB → Prop) key now
    (f : User.t → DB → response A * DB) db :
  P db db →
  (∀ user db0, same_accounts db db0 → disk db0 = disk db →
               messages db0 = messages db → P db (f user db0).2) →
  P db (require_api_key key now f db).2.
Proof.
  intros Hrefl Hf. unfold require_api_key.
  destruct (negb _); [done|]. destruct (first _ (users db)); [|done].
  apply Hf; [|done|done]. by apply update_user_same_accounts.
Qed.

(** What each kind of request leaves alone.  No request removes or
    renames an account, and only registration and start-up add one.  Files
    appear only through [send_file] and disappear only in the background
    cycle.  Webhook registrations change only through [set_webhook] and the
    notification thread. *)
Theorem handle_frame sf now r db :
  let db' := handle sf now r db in
  match r with
  | InitDb _ | RegisterUser _ _ =>
      (users db' = users db ∨ ∃ u, users db' = users db ++ [u]) ∧
      messages db' = messages db ∧ webhooks db' = webhooks db ∧ disk db' = disk db
  | SendFile _ _ _ _ _ _ _ => same_accounts db db' ∧ disk db ⊆ disk db'
  | BackgroundCycle => same_accounts db db' ∧ disk db' ⊆ disk db
  | SetWebhook _ _ | WebhookThread _ _ _ =>
      map User.user_id (users db') = map User.user_id (users db) ∧
      disk db' = disk db
  | _ => same_accounts db db' ∧ disk db' = disk db
  end.
Proof.
  intros db'. subst db'. destruct r; simpl handle.
  - unfold init_db. destruct (first _ (users db)); [by auto|].
    split; [right; by eexists|done].
  - unfold register_user. destruct (no_data data); [by auto|].
    destruct (_ || _); [by auto|].
    destruct (first _ (users db)); [by auto|]. split; [right; by eexists|done].
  - apply (require_api_key_quiet (λ d d', same_accounts d d' ∧ disk d' = disk d));
      [by split|].
    intros user db0 Hacc Hdisk _. unfold send_message.
    repeat (match goal with |- context [if ?b then _ else _] => destruct b end;
            [done|]).
    destruct (reply_link _ db0). split; [|done].
    eapply same_accounts_trans; [done|].
    by apply (update_user_same_accounts _ _ (set_messages _ db0)).
  - apply (require_api_key_quiet (λ d d', same_accounts d d' ∧ disk d ⊆ disk d'));
      [by split|].
    intros user db0 Hacc Hdisk _.
    assert (same_accounts db db0 ∧ disk db ⊆ disk db0) as Hsame
      by (split; [done|by rewrite Hdisk]).
    unfold send_file. destruct (parse_files _ _) as [|[file_|]]; [done| |done].
    repeat (match goal with |- context [if ?b then _ else _] => destruct b end;
            [done|]).
    destruct (reply_link _ db0). destruct (_ && _); [|done].
    split.
    + eapply same_accounts_trans; [done|].
      by apply (update_user_same_accounts _ _ (set_messages _ (set_disk _ db0))).
    + cbn [disk update_user set_users set_messages set_disk]. rewrite Hdisk.
      apply union_subseteq_r.
  - apply (require_api_key_quiet (λ d d', same_accounts d d' ∧ disk d' = disk d));
      [by split|].
    intros user db0 Hacc Hdisk _. rewrite get_updates_eq. cbn [snd].
    destruct (foldl_mark_delivered_quiet
                (polled user offset limit_arg timeout_arg db0) db0) as [H1 H2].
    split; [by eapply same_accounts_trans|congruence].
  - apply (require_api_key_quiet (λ d d', same_accounts d d' ∧ disk d' = disk d));
      [by split|].
    intros user db0 Hacc Hdisk _. unfold get_chat_history. by destruct (negb _).
  - apply (require_api_key_quiet (λ d d', same_accounts d d' ∧ disk d' = disk d));
      [by split|].
    intros user db0 Hacc Hdisk _. unfold download_file.
    destruct (first _ (messages db0)); [|done].
    destruct (_ && _); [done|]. destruct (negb _); [done|].
    split; [|done]. eapply same_accounts_trans; [done|].
    by apply (update_user_same_accounts _ _ (update_message _ _ db0)).
  - apply (require_api_key_quiet
             (λ d d', map User.user_id (users d') = map User.user_id (users d) ∧
                      disk d' = disk d)); [done|].
    intros user db0 [_ Hacc] Hdisk _. unfold set_webhook. by destruct (_ || _).
  - apply (require_api_key_quiet (λ d d', same_accounts d d' ∧ disk d' = disk d));
      [by split|].
    by intros user db0 Hacc Hdisk _.
  - unfold send_webhook_notification.
    destruct (active_webhook user_id db); [|done]. destruct post; [|done].
    cbn [snd]. by destruct (first _ _).
  - apply background_cycle_quiet.
Qed.

(** ** The per-user cap *)




